(** * A shallow embedding of the webcam dataflow core

    Two source files are modelled:
    - [tools/webcam/webcam_apis/utils/buffer.py]: the [BufferManager], a
      dictionary of named queues, and its [check_buffer_registered] decorator;
    - [tools/webcam/webcam_apis/nodes/node.py]: the [Node] base class, its
      input gathering and its scheduling loop.

    Python objects that are mutated in place live in an explicit store: the
    queues of a manager are cells of a heap, and a manager maps names to heap
    locations, so that two managers can refer to the same queue.  Every
    operation is a state transformer whose outcome is a returned value, a
    raised exception or a call that does not return because it waits. *)

From Stdlib Require Import ZArith QArith.
From stdpp Require Import base strings gmap list.

Local Open Scope Z_scope.

(** ** Outcomes of Python calls *)

Module Py.

(** The exception classes that occur in the two files (and in the queue
    they use).  [InternalError] is not a Python class: it marks a heap
    location without a cell, which well-formed stores exclude. *)
Inductive exn_class : Type :=
| ValueError | TypeError | KeyError | IndexError | AttributeError
| NotImplementedError | RuntimeError | OverflowError
| Full   (* queue.Full *)
| Empty  (* queue.Empty *)
| InternalError.

#[export] Instance exn_class_eq_dec : EqDecision exn_class.
Proof. solve_decision. Defined.

Record exn : Type := Exn { exn_cls : exn_class; exn_msg : string }.

(** The outcome of a call on a store of type [St]: it returns, it raises,
    or it waits for another thread ([Block]).  Each outcome carries the
    store as the call left it. *)
Inductive result (St A : Type) : Type :=
| Ret (a : A) (s : St)
| Raise (e : exn) (s : St)
| Block (s : St).
Arguments Ret {St A} a s.
Arguments Raise {St A} e s.
Arguments Block {St A} s.

Definition M (St A : Type) : Type := St -> result St A.

Definition ret {St A} (a : A) : M St A := fun s => Ret a s.
Definition raise {St A} (e : exn) : M St A := fun s => Raise e s.
Definition bind {St A B} (m : M St A) (k : A -> M St B) : M St B :=
  fun s =>
    match m s with
    | Ret a s' => k a s'
    | Raise e s' => Raise e s'
    | Block s' => Block s'
    end.

(** [try: m except classes: h]: the handler runs when [m] raises an
    exception of one of the listed classes. *)
Definition try_except {St A} (m : M St A) (classes : list exn_class)
           (h : M St A) : M St A :=
  fun s =>
    match m s with
    | Raise e s' => if bool_decide (exn_cls e ∈ classes) then h s' else Raise e s'
    | r => r
    end.

Definition final_store {St A} (r : result St A) : St :=
  match r with Ret _ s | Raise _ s | Block s => s end.

(** The double quote character, for the messages built with f-strings. *)
Definition dq : string := String (Ascii.ascii_of_nat 34) EmptyString.

End Py.
Import Py.

Declare Scope py_scope.
Delimit Scope py_scope with py.
Notation "'let*' x ':=' m 'in' k" := (Py.bind m (fun x => k))
  (at level 10, x pattern, m at level 100, k at level 200, only parsing) : py_scope.
Notation "'exec' m 'then' k" := (Py.bind m (fun _ => k))
  (at level 10, m at level 100, k at level 200, only parsing) : py_scope.

(** ** The library queue

    [multiprocessing.Queue(maxsize)]: a first-in-first-out queue, bounded when
    [maxsize] is positive (for a [maxsize] of zero or less the library puts
    the largest semaphore value of the platform, taken here as no bound).
    [put] and [get] take [block] and [timeout] as in the library; a call
    that would wait with no timeout is [Block], a call that gives up, at once
    or when its timeout has passed, raises [queue.Full] or [queue.Empty].
    The items are the values put; pickling is not modelled.

    The library hands the items put to a feeder thread, and until that
    thread has written them [empty()] answers [True] and a [get] that does
    not wait indefinitely raises [queue.Empty]; the default [get] waits for
    them.  [empty], and [get] with other than its default arguments on a
    queue that holds items, are those of a queue whose items have been
    written.  The statements about them go from no item to [True] and from
    [False] to an item, or hold for every outcome; where an item is taken,
    it is by the default [get]. *)

Module Queue.
Section Queue.
Context {A : Type}.

Record t : Type := mk { maxsize : Z; items : list A }.

(** The largest value of a semaphore, which bounds [maxsize]. *)
Definition SEM_VALUE_MAX : Z := 2147483647.

(** [Queue(maxsize)]: the bounded semaphore of the queue cannot be made for
    a [maxsize] above [SEM_VALUE_MAX], and the constructor raises
    [OverflowError]. *)
Definition init (maxsize : Z) : exn + t :=
  if bool_decide (SEM_VALUE_MAX < maxsize) then inl (Exn OverflowError "")
  else inr (mk maxsize []).

Definition qsize (q : t) : nat := length (items q).
Definition empty (q : t) : bool := bool_decide (items q = []).
Definition full (q : t) : bool :=
  bool_decide (0 < maxsize q) && bool_decide (maxsize q <= Z.of_nat (length (items q))).

Definition put (item : A) (block : bool) (timeout : option Q) : M t unit :=
  fun q =>
    if full q then
      match block, timeout with
      | true, None => Block q
      | _, _ => Raise (Exn Full "") q
      end
    else Ret tt (mk (maxsize q) (items q ++ [item])).

Definition put_nowait (item : A) : M t unit := put item false None.

Definition get (block : bool) (timeout : option Q) : M t A :=
  fun q =>
    match items q with
    | x :: rest => Ret x (mk (maxsize q) rest)
    | [] =>
        match block, timeout with
        | true, None => Block q
        | _, _ => Raise (Exn Empty "") q
        end
    end.
End Queue.
Arguments t : clear implicits.
End Queue.

(** ** buffer.py *)

Module BufferManager.
(** A heap location of a queue object. *)
Abbreviation loc := nat.

(** The queue objects; a location is an index. *)
Abbreviation heap A := (list (Queue.t A)).

(** A manager is its [_buffers] dictionary: names to queue objects. *)
Abbreviation t := (gmap string loc).

Section BufferManager.
Context {A : Type}.
Local Abbreviation heap := (heap A).

(** [BufferManager.__init__(self)] takes no argument besides [self]; the
    call [BufferManager(a1, ..., an)] with [n > 0] positional arguments is
    a [TypeError]. *)
Definition __init__ (args : list t) : M heap t :=
  match args with
  | [] => ret ∅
  | _ :: _ => raise (Exn TypeError "")
  end.

Definition __contains__ (self : t) (name : string) : bool :=
  bool_decide (is_Some (self !! name)).

Definition not_registered_msg (func_name name : string) : string :=
  "Fail to call " +:+ func_name +:+ ": buffer " +:+ dq +:+ name +:+ dq
    +:+ " is not registered.".

Definition already_registered_msg (func_name name : string) : string :=
  "Fail to call " +:+ func_name +:+ ": buffer " +:+ dq +:+ name +:+ dq
    +:+ " is already registered.".

(** The decorator; [func_name] is [func.__name__]. *)
Definition check_buffer_registered {R : Type} (exist : bool) (func_name : string)
           (func : t -> string -> M heap R) : t -> string -> M heap R :=
  fun manager name =>
    if exist then
      if negb (__contains__ manager name)
      then raise (Exn ValueError (not_registered_msg func_name name))
      else func manager name
    else
      if __contains__ manager name
      then raise (Exn ValueError (already_registered_msg func_name name))
      else func manager name.

(** [self._buffers[name]]: the dictionary lookup, then the object. *)
Definition lookup_buffer (self : t) (name : string) : M heap loc :=
  match self !! name with
  | Some l => ret l
  | None => raise (Exn KeyError name)
  end.

(** Run a queue method on the queue object at [l]. *)
Definition on_queue {R : Type} (l : loc) (m : M (Queue.t A) R) : M heap R :=
  fun h =>
    match h !! l with
    | None => Raise (Exn InternalError "") h
    | Some q =>
        match m q with
        | Ret a q' => Ret a (<[l := q']> h)
        | Raise e q' => Raise e (<[l := q']> h)
        | Block q' => Block (<[l := q']> h)
        end
    end.

(** [register_buffer] stores a new queue object under [name]; the
    updated manager is returned.  When the queue cannot be made nothing is
    stored. *)
Definition register_buffer (self : t) (name : string) (maxsize : Z) : M heap t :=
  check_buffer_registered false "register_buffer"
    (fun self name h =>
       match Queue.init maxsize with
       | inl e => Raise e h
       | inr q => Ret (<[name := length h]> self) (h ++ [q])
       end)
    self name.

Definition put (self : t) (name : string) (item : A)
           (block : bool) (timeout : option Q) : M heap unit :=
  check_buffer_registered true "put"
    (fun self name =>
       (let* l := lookup_buffer self name in on_queue l (Queue.put item block timeout))%py)
    self name.

Definition try_put (self : t) (name : string) (item : A) : M heap bool :=
  check_buffer_registered true "try_put"
    (fun self name =>
       try_except
         (let* l := lookup_buffer self name in
          exec on_queue l (Queue.put_nowait item) then
          ret true)%py
         [Full]
         (ret false))
    self name.

Definition get (self : t) (name : string)
           (block : bool) (timeout : option Q) : M heap A :=
  check_buffer_registered true "get"
    (fun self name =>
       (let* l := lookup_buffer self name in on_queue l (Queue.get block timeout))%py)
    self name.

Definition is_empty (self : t) (name : string) : M heap bool :=
  check_buffer_registered true "is_empty"
    (fun self name =>
       (let* l := lookup_buffer self name in on_queue l (fun q => Ret (Queue.empty q) q))%py)
    self name.

Definition is_full (self : t) (name : string) : M heap bool :=
  check_buffer_registered true "is_full"
    (fun self name =>
       (let* l := lookup_buffer self name in on_queue l (fun q => Ret (Queue.full q) q))%py)
    self name.

(** The dictionary comprehension of [get_sub_manager]. *)
Fixpoint sub_buffers (self : t) (buffer_names : list string) (acc : t) : M heap t :=
  match buffer_names with
  | [] => ret acc
  | name :: rest =>
      (let* l := lookup_buffer self name in sub_buffers self rest (<[name := l]> acc))%py
  end.

Definition get_sub_manager (self : t) (buffer_names : list string) : M heap t :=
  (let* buffers := sub_buffers self buffer_names ∅ in __init__ [buffers])%py.

Definition get_info (self : t) : M heap (gmap string nat) :=
  fun h => Ret (omap (fun l => Queue.qsize <$> h !! l) self) h.

End BufferManager.
End BufferManager.

(** ** The registry interface a Node relies on

    [node.py] calls three methods of [self.runner.buffer_manager] and is
    otherwise independent of the class of that object. *)

Class BufferRegistry (Mgr St Msg : Type) : Type := {
  bm_is_empty : Mgr -> string -> M St bool;
  bm_get : Mgr -> string -> bool -> option Q -> M St Msg;
  bm_put : Mgr -> string -> Msg -> bool -> option Q -> M St unit;
}.

#[export] Instance BufferManager_registry (Msg : Type) :
  BufferRegistry (gmap string BufferManager.loc) (BufferManager.heap Msg) Msg := {|
  bm_is_empty := BufferManager.is_empty;
  bm_get := BufferManager.get;
  bm_put := BufferManager.put;
|}.

(** ** node.py *)

Module Node.
Section Node.
Context {Msg Info Mgr St : Type} `{!BufferRegistry Mgr St Msg}.

(** [enable_key : Optional[Union[str, int]]]. *)
Inductive Key : Type := KeyStr (s : string) | KeyInt (z : Z).

(** Truth value of [self.enable_key] in [if self.enable_key:]. *)
Definition key_truthy (k : option Key) : bool :=
  match k with
  | None => false
  | Some (KeyStr s) => negb (bool_decide (s = ""))
  | Some (KeyInt z) => negb (bool_decide (z = 0))
  end.

Record InputBinding : Type := {
  buffer_name : string;
  input_name : string;
  essential : bool;
}.

Record OutputBinding : Type := { out_buffer_name : string }.

(** The packed inputs: logical input name to message or [None]. *)
Abbreviation inputs := (gmap string (option Msg)).

(** A [process] or [bypass] method: it returns a message or [None], or
    raises. *)
Definition transform : Type := inputs -> exn + option Msg.

(** A concrete subclass of [Node]: [process] is abstract in [Node] and so
    always provided; [bypass] may be overridden. *)
Record NodeClass : Type := {
  process : transform;
  bypass_override : option transform;
}.

(** What [is_method_overridden('bypass', Node, self.__class__)] answers. *)
Definition is_bypass_overridden (c : NodeClass) : bool :=
  bool_decide (is_Some (bypass_override c)).

(** The part of the runner a Node reads. *)
Record Runner : Type := { buffer_manager : Mgr }.

Inductive listener : Type :=
| EventListener (event_name : string)
| HotkeyListener (key : Key).

(** The fields of a node.  [_timer], the stopwatch behind the reported
    rate, is left out: what it reports reaches [run_iteration] as [info]. *)
Record t : Type := mk {
  class : NodeClass;
  name : option string;
  _runner : option Runner;
  _enabled : bool;
  enable_key : option Key;
  input_buffers : list InputBinding;
  output_buffers : list OutputBinding;
  max_fps : Z;
  input_check_interval : Q;
  _event2listener : list listener;
}.

Definition __init__ (c : NodeClass) (name : option string) (enable_key : option Key)
           (max_fps : Z) (input_check_interval : Q) : exn + t :=
  let self := mk c name None true enable_key [] [] max_fps input_check_interval [] in
  if key_truthy (Node.enable_key self) then
    if negb (is_bypass_overridden c)
    then inl (Exn NotImplementedError "")
    else inr self
  else inr self.

Definition register_input_buffer (self : t) (buffer_name input_name : string)
           (essential : bool) : t :=
  let buffer_info := Build_InputBinding buffer_name input_name essential in
  mk (class self) (name self) (_runner self) (_enabled self) (enable_key self)
     (input_buffers self ++ [buffer_info]) (output_buffers self)
     (max_fps self) (input_check_interval self) (_event2listener self).

(** [buffer_name : Union[str, list[str]]]. *)
Definition register_output_buffer (self : t) (buffer_name : string + list string) : t :=
  let buffer_name := match buffer_name with inl s => [s] | inr l => l end in
  mk (class self) (name self) (_runner self) (_enabled self) (enable_key self)
     (input_buffers self) (output_buffers self ++ (Build_OutputBinding <$> buffer_name))
     (max_fps self) (input_check_interval self) (_event2listener self).

(** The [runner] property ([None] after a warning when unset).  The code
    keeps a weak reference; the runner is taken to be alive as long as the
    node is used. *)
Definition runner (self : t) : option Runner := _runner self.

(** The handler that [set_runner] registers for [enable_key]. *)
Definition _toggle_enable (self : t) : t :=
  mk (class self) (name self) (_runner self) (negb (_enabled self)) (enable_key self)
     (input_buffers self) (output_buffers self)
     (max_fps self) (input_check_interval self) (_event2listener self).

(** [register_event_handler] and [register_hotkey_handler] start a listener
    thread and record it; both need the runner.  The handler of the toggle
    key is [_toggle_enable].  [_event2listener] is kept as the list of the
    registrations in their order; the code keys a dictionary by the event
    name or by ["hotkey_<key>"], so that a name registered again shows here
    as a second entry while its first thread goes on listening.  No
    statement rests on a repeated name. *)
Definition register_event_handler (self : t) (event_name : string) : exn + t :=
  match runner self with
  | None => inl (Exn ValueError "")
  | Some _ =>
      inr (mk (class self) (name self) (_runner self) (_enabled self) (enable_key self)
              (input_buffers self) (output_buffers self)
              (max_fps self) (input_check_interval self)
              (_event2listener self ++ [EventListener event_name]))
  end.

Definition register_hotkey_handler (self : t) (key : Key) : exn + t :=
  match runner self with
  | None => inl (Exn ValueError "")
  | Some _ =>
      inr (mk (class self) (name self) (_runner self) (_enabled self) (enable_key self)
              (input_buffers self) (output_buffers self)
              (max_fps self) (input_check_interval self)
              (_event2listener self ++ [HotkeyListener key]))
  end.

Definition set_runner (self : t) (r : Runner) : exn + t :=
  match _runner self with
  | Some _ => inl (Exn RuntimeError "")
  | None =>
      let self := mk (class self) (name self) (Some r) (_enabled self) (enable_key self)
                     (input_buffers self) (output_buffers self)
                     (max_fps self) (input_check_interval self) (_event2listener self) in
      match enable_key self with
      | Some k => if key_truthy (Some k) then register_hotkey_handler self k else inr self
      | None => inr self
      end
  end.

(** What [_get_input_from_buffer] returns: [(False, None)] or
    [(True, result)]. *)
Inductive gathered : Type :=
| NotReady
| Ready (input_msgs : inputs).

(** First loop of [_get_input_from_buffer]: [false] stands for the early
    [return False, None]. *)
Fixpoint check_essential (bm : Mgr) (bs : list InputBinding) : M St bool :=
  match bs with
  | [] => ret true
  | buffer_info :: rest =>
      if essential buffer_info then
        (let* e := bm_is_empty bm (buffer_name buffer_info) in
         if (e : bool) then ret false else check_essential bm rest)%py
      else check_essential bm rest
  end.

(** The default input: every logical name bound to [None]. *)
Definition default_inputs (bs : list InputBinding) : inputs :=
  foldl (fun result buffer_info => <[input_name buffer_info := None]> result) ∅ bs.

(** Second loop of [_get_input_from_buffer]. *)
Fixpoint fetch_inputs (bm : Mgr) (bs : list InputBinding) (result : inputs)
  : M St gathered :=
  match bs with
  | [] => ret (Ready result)
  | buffer_info :: rest =>
      fun s =>
        match bm_get bm (buffer_name buffer_info) true None s with
        | Ret data s' =>
            fetch_inputs bm rest (<[input_name buffer_info := Some data]> result) s'
        | Raise e s' =>
            if bool_decide (exn_cls e ∈ [IndexError; KeyError]) then
              if essential buffer_info then Ret NotReady s'
              else fetch_inputs bm rest (<[input_name buffer_info := None]> result) s'
            else Raise e s'
        | Block s' => Block s'
        end
  end.

Definition _get_input_from_buffer (self : t) : M St gathered :=
  match runner self with
  | None => raise (Exn AttributeError "")
  | Some r =>
      let buffer_manager := buffer_manager r in
      (let* ready := check_essential buffer_manager (input_buffers self) in
       if (ready : bool)
       then fetch_inputs buffer_manager (input_buffers self)
                         (default_inputs (input_buffers self))
       else ret NotReady)%py
  end.

(** [bypass] of the class: the override, or [Node.bypass], which raises. *)
Definition bypass (c : NodeClass) : transform :=
  default (fun _ => inl (Exn NotImplementedError "")) (bypass_override c).

(** *** The scheduling loop

    What the loop does besides using the buffers is recorded as a trace
    of events. *)
Inductive event : Type :=
| Sleep (seconds : Q)
| CallProcess (input_msgs : inputs)
| CallBypass (input_msgs : inputs)
| UpdateRouteInfo (msg : Msg) (info : Info).

Record world : Type := World { bufs : St; trace : list event }.

Definition lift {R : Type} (m : M St R) : M world R :=
  fun w =>
    match m (bufs w) with
    | Ret a s => Ret a (World s (trace w))
    | Raise e s => Raise e (World s (trace w))
    | Block s => Block (World s (trace w))
    end.

Definition emit (e : event) : M world unit :=
  fun w => Ret tt (World (bufs w) (trace w ++ [e])).

Definition call (f : transform) (input_msgs : inputs) : M world (option Msg) :=
  fun w => match f input_msgs with inl e => Raise e w | inr o => Ret o w end.

(** [time.sleep(seconds)]: a negative length is a [ValueError]. *)
Definition sleep (seconds : Q) : M world unit :=
  if Qle_bool 0 seconds then emit (Sleep seconds)
  else raise (Exn ValueError "sleep length must be non-negative").

(** The message type is not part of the two files: its truth value and
    its [update_route_info] method are taken as given. *)
Context (msg_truthy : Msg -> bool).
Context (update_route_info : Msg -> t -> Info -> Msg).

(** Truth value of [output_msg] in [if output_msg:]. *)
Definition truthy (output_msg : option Msg) : bool :=
  match output_msg with
  | None => false
  | Some m => msg_truthy m
  end.

(** The dispatch loop over [self.output_buffers]. *)
Fixpoint dispatch (self : t) (outs : list OutputBinding) (output_msg : Msg)
  : M world unit :=
  match outs with
  | [] => ret tt
  | buffer_info :: rest =>
      match runner self with
      | None => raise (Exn AttributeError "")
      | Some r =>
          (exec lift (bm_put (buffer_manager r) (out_buffer_name buffer_info)
                             output_msg true None)
           then dispatch self rest output_msg)%py
      end
  end.

(** One pass through the body of [while True:] in [run].  [info] is what
    [_get_node_info] reports in this pass (timer and clock readings).  The
    two context managers around the call of [process], [_timer.timeit()] and
    [limit_max_fps(max_fps)], only measure and delay; they are not modelled. *)
Definition run_iteration (self : t) (info : Info) : M world unit :=
  (let* g := lift (_get_input_from_buffer self) in
   match g with
   | NotReady => sleep (input_check_interval self)
   | Ready input_msgs =>
       let* output_msg :=
         if negb (_enabled self) then
           exec emit (CallBypass input_msgs) then
           call (bypass (class self)) input_msgs
         else
           let* output_msg :=
             (exec emit (CallProcess input_msgs) then
              call (process (class self)) input_msgs) in
           match output_msg with
           | Some m =>
               if msg_truthy m then
                 exec emit (UpdateRouteInfo m info) then
                 ret (Some (update_route_info m self info))
               else ret output_msg
           | None => ret output_msg
           end
       in
       match output_msg with
       | Some m =>
           if msg_truthy m then dispatch self (output_buffers self) m else ret tt
       | None => ret tt
       end
   end)%py.

(** [run]: the loop, observed for as many passes as there are [infos]. *)
Fixpoint run (self : t) (infos : list Info) : M world unit :=
  match infos with
  | [] => ret tt
  | info :: rest => (exec run_iteration self info then run self rest)%py
  end.

(** The loop together with the hotkey listener: between two passes the
    toggle key may fire, which runs [_toggle_enable]. *)
Inductive tick : Type :=
| Pass (info : Info)
| ToggleFired.

Fixpoint live (self : t) (ticks : list tick) : M world t :=
  match ticks with
  | [] => ret self
  | Pass info :: rest => (exec run_iteration self info then live self rest)%py
  | ToggleFired :: rest => live (_toggle_enable self) rest
  end.

End Node.
Arguments t : clear implicits.
Arguments world : clear implicits.
Arguments event : clear implicits.
Arguments gathered : clear implicits.
Arguments NodeClass : clear implicits.
Arguments Runner : clear implicits.
End Node.

(** ** Auxiliary definitions for the statements *)

Section Observers.
Context {A : Type}.
Implicit Types (self : gmap string BufferManager.loc) (h : BufferManager.heap A).

(** Every queue a manager names is a cell of the heap. *)
Definition wf self h : Prop :=
  ∀ name l, self !! name = Some l → (l < length h)%nat.

(** The items waiting in the buffer [name], oldest first. *)
Definition contents self h (name : string) : option (list A) :=
  l ← self !! name; Queue.items <$> h !! l.



(** The class of the exception a call raised, if it raised. *)
Definition raised_class {St R : Type} (r : result St R) : option exn_class :=
  match r with
  | Raise e _ => Some (exn_cls e)
  | _ => None
  end.
End Observers.

Section NodeObservers.
Context {Msg Info Mgr St : Type} `{!BufferRegistry Mgr St Msg}.

(** [_get_input_from_buffer] with a step [other] of another thread between
    its readiness loop and its fetch loop. *)
Definition raced_gather (self : Node.t Msg Mgr) (other : M St unit)
  : M St (Node.gathered Msg) :=
  match Node.runner self with
  | None => raise (Exn AttributeError "")
  | Some r =>
      let bm := Node.buffer_manager r in
      (let* ready := Node.check_essential bm (Node.input_buffers self) in
       if (ready : bool)
       then exec other then
            Node.fetch_inputs bm (Node.input_buffers self)
                              (Node.default_inputs (Node.input_buffers self))
       else ret Node.NotReady)%py
  end.

Definition is_bypass_call (e : Node.event Msg Info) : bool :=
  match e with
  | Node.CallBypass _ => true
  | _ => false
  end.

(** The nodes whose toggle never fired: built by [__init__] and then only
    configured ([register_input_buffer], [register_output_buffer],
    [set_runner], [register_event_handler], [register_hotkey_handler]). *)
Inductive never_toggled : Node.t Msg Mgr → Prop :=
| nt_init c name key fps ival self :
    Node.__init__ c name key fps ival = inr self → never_toggled self
| nt_input self buffer_name input_name essential :
    never_toggled self →
    never_toggled (Node.register_input_buffer self buffer_name input_name essential)
| nt_output self buffer_name :
    never_toggled self → never_toggled (Node.register_output_buffer self buffer_name)
| nt_runner self r self' :
    never_toggled self → Node.set_runner self r = inr self' → never_toggled self'
| nt_event self event_name self' :
    never_toggled self → Node.register_event_handler self event_name = inr self' →
    never_toggled self'
| nt_hotkey self key self' :
    never_toggled self → Node.register_hotkey_handler self key = inr self' →
    never_toggled self'.

(** The transform a pass calls: [process] when enabled, [bypass] otherwise. *)
Definition chosen_transform (self : Node.t Msg Mgr) : Node.transform (Msg := Msg) :=
  if Node._enabled self then Node.process (Node.class self)
  else Node.bypass (Node.class self).

Definition chosen_call (self : Node.t Msg Mgr) (input_msgs : gmap string (option Msg))
  : Node.event Msg Info :=
  if Node._enabled self then Node.CallProcess input_msgs else Node.CallBypass input_msgs.
End NodeObservers.

(** *** Concrete nodes for the examples

    Messages are integers, falsy when zero; a route record adds one. *)
Module Demo.
Definition msg_truthy (m : Z) : bool := negb (bool_decide (m = 0)).
Definition update_route_info {Mgr : Type} (m : Z) (_ : Node.t Z Mgr) (_ : unit) : Z := m + 1.

(** A subclass that forwards its input ["x"] and does not override [bypass]. *)
Definition Forward : Node.NodeClass Z :=
  {| Node.process := fun input_msgs => inr (default None (input_msgs !! "x"));
     Node.bypass_override := None |}.

(** A subclass that overrides [bypass] as well. *)
Definition Toggleable : Node.NodeClass Z :=
  {| Node.process := fun input_msgs => inr (default None (input_msgs !! "x"));
     Node.bypass_override := Some (fun _ => inr None) |}.

Definition interval : Q := (1 # 1000)%Q.

(** A manager with the buffers ["a"] and ["b"], and one with ["X"] only. *)
Definition ab : gmap string BufferManager.loc := {["a" := 0%nat; "b" := 1%nat]}.
Definition onlyX : gmap string BufferManager.loc := {["X" := 0%nat]}.

Definition node {Mgr : Type} (c : Node.NodeClass Z) (bm : Mgr)
           (ins : list Node.InputBinding) (outs : list string) : Node.t Z Mgr :=
  Node.mk c None (Some (Node.Build_Runner bm)) true None ins
          (Node.Build_OutputBinding <$> outs) 30 interval [].

Definition binding (buffer_name input_name : string) (essential : bool) : Node.InputBinding :=
  Node.Build_InputBinding buffer_name input_name essential.

(** A manager with an input buffer ["X"] and an output buffer ["Y"], and a
    forwarding node wired to them by the configuration methods. *)
Definition xy : gmap string BufferManager.loc := {["X" := 0%nat; "Y" := 1%nat]}.

Definition wired : Node.t Z (gmap string BufferManager.loc) :=
  node Forward xy [binding "X" "x" true] ["Y"].

(** The wired node after [register_event_handler("reset", ...)]. *)
Definition wired_reset : Node.t Z (gmap string BufferManager.loc) :=
  Node.mk Forward None (Some (Node.Build_Runner xy)) true None
          [binding "X" "x" true] [Node.Build_OutputBinding "Y"] 30 interval
          [Node.EventListener "reset"].

(** The wired node of the class that overrides [bypass], disabled. *)
Definition wired_disabled : Node.t Z (gmap string BufferManager.loc) :=
  Node._toggle_enable (node Toggleable xy [binding "X" "x" true] ["Y"]).

(** Another consumer of the buffer ["b"]. *)
Definition take_b : M (BufferManager.heap Z) unit :=
  (exec BufferManager.get ab "b" true None then ret tt)%py.

(** A subclass whose [process] raises. *)
Definition Failing : Node.NodeClass Z :=
  {| Node.process := fun _ => inl (Exn RuntimeError "process failed");
     Node.bypass_override := None |}.

(** A node of the class that overrides [bypass], with the toggle key ["t"]:
    as [__init__] returns it, and as [set_runner] returns it. *)
Definition keyed : Node.t Z (gmap string BufferManager.loc) :=
  Node.mk Toggleable None None true (Some (Node.KeyStr "t")) [] [] 30 interval [].

Definition keyed_bound : Node.t Z (gmap string BufferManager.loc) :=
  Node.mk Toggleable None (Some (Node.Build_Runner xy)) true (Some (Node.KeyStr "t"))
          [] [] 30 interval [Node.HotkeyListener (Node.KeyStr "t")].

(** The wired node with two output bindings, ["X"] then ["Y"]. *)
Definition fan_out : Node.t Z (gmap string BufferManager.loc) :=
  node Forward xy [] ["X"; "Y"].
End Demo.

(** *** Further observers *)

Section StoreObservers.
Context {A : Type}.
Implicit Types (self : gmap string BufferManager.loc) (h : BufferManager.heap A).

(** No two names of a manager denote the same queue object. *)
Definition no_alias self : Prop :=
  ∀ n1 n2 l, self !! n1 = Some l → self !! n2 = Some l → n1 = n2.

(** [h'] has the queues of [h], each with the capacity it had. *)
Definition same_capacities h h' : Prop :=
  length h' = length h ∧ ∀ l, Queue.maxsize <$> h' !! l = Queue.maxsize <$> h !! l.

(** [h'] has the queues of [h], each with the capacity it had and with what
    is left of its items once some of the oldest were taken. *)
Definition shrunk h h' : Prop :=
  length h' = length h ∧
  ∀ l q', h' !! l = Some q' →
          ∃ q, h !! l = Some q ∧ Queue.maxsize q' = Queue.maxsize q ∧
               Queue.items q' `suffix_of` Queue.items q.
End StoreObservers.

Section LifecycleObservers.
Context {Msg Info Mgr : Type}.

(** The events of the enabled branch of [run]. *)
Definition is_enabled_side (e : Node.event Msg Info) : bool :=
  match e with
  | Node.CallProcess _ | Node.UpdateRouteInfo _ _ => true
  | _ => false
  end.

(** The nodes a program can reach: built by [__init__], configured by the
    registration methods and [set_runner], and toggled by the handler that
    [set_runner] registers, which exists only when the node has a runner and
    a truthy [enable_key]. *)
Inductive lifecycle : Node.t Msg Mgr → Prop :=
| lc_init c name key fps ival self :
    Node.__init__ c name key fps ival = inr self → lifecycle self
| lc_input self buffer_name input_name essential :
    lifecycle self →
    lifecycle (Node.register_input_buffer self buffer_name input_name essential)
| lc_output self buffer_name :
    lifecycle self → lifecycle (Node.register_output_buffer self buffer_name)
| lc_runner self r self' :
    lifecycle self → Node.set_runner self r = inr self' → lifecycle self'
| lc_event self event_name self' :
    lifecycle self → Node.register_event_handler self event_name = inr self' →
    lifecycle self'
| lc_hotkey self key self' :
    lifecycle self → Node.register_hotkey_handler self key = inr self' →
    lifecycle self'
| lc_toggle self :
    lifecycle self →
    is_Some (Node._runner self) → Node.key_truthy (Node.enable_key self) = true →
    lifecycle (Node._toggle_enable self).

End LifecycleObservers.

(** ** Facts about buffer.py *)

Section BufferManagerFacts.
Context {A : Type}.
Implicit Types (self : gmap string BufferManager.loc) (h : BufferManager.heap A).
Implicit Types (q : Queue.t A) (name : string) (l : BufferManager.loc).

Lemma contains_Some self name l :
  self !! name = Some l → BufferManager.__contains__ self name = true.
Proof. intros E. unfold BufferManager.__contains__. apply bool_decide_eq_true. eauto. Qed.

Lemma contains_None self name :
  self !! name = None → BufferManager.__contains__ self name = false.
Proof.
  intros E. unfold BufferManager.__contains__. apply bool_decide_eq_false.
  rewrite E. intros [? ?]; discriminate.
Qed.

(** A checked method on a registered name runs the queue method on the
    queue object of that name. *)
Lemma checked_registered {R} fname (m : M (Queue.t A) R) self name l h q :
  self !! name = Some l → h !! l = Some q →
  BufferManager.check_buffer_registered true fname
    (fun self name =>
       (let* l := BufferManager.lookup_buffer self name in
        BufferManager.on_queue l m)%py) self name h
  = match m q with
    | Ret a q' => Ret a (<[l := q']> h)
    | Raise e q' => Raise e (<[l := q']> h)
    | Block q' => Block (<[l := q']> h)
    end.
Proof.
  intros Hn Hl. unfold BufferManager.check_buffer_registered.
  rewrite (contains_Some _ _ _ Hn). simpl.
  unfold bind, BufferManager.lookup_buffer. rewrite Hn. simpl.
  unfold BufferManager.on_queue. rewrite Hl. reflexivity.
Qed.

Lemma checked_unregistered {R} fname (f : gmap string BufferManager.loc → string → M (BufferManager.heap A) R)
      self name h :
  self !! name = None →
  BufferManager.check_buffer_registered true fname f self name h
  = Raise (Exn ValueError (BufferManager.not_registered_msg fname name)) h.
Proof.
  intros Hn. unfold BufferManager.check_buffer_registered.
  rewrite (contains_None _ _ Hn). reflexivity.
Qed.

Lemma put_registered self name l h q v block timeout :
  self !! name = Some l → h !! l = Some q → Queue.full q = false →
  BufferManager.put self name v block timeout h
  = Ret tt (<[l := Queue.mk (Queue.maxsize q) (Queue.items q ++ [v])]> h).
Proof.
  intros Hn Hl Hf. unfold BufferManager.put.
  rewrite (checked_registered _ _ _ _ _ _ _ Hn Hl).
  unfold Queue.put. rewrite Hf. reflexivity.
Qed.

Lemma get_registered self name l h q x rest :
  self !! name = Some l → h !! l = Some q → Queue.items q = x :: rest →
  BufferManager.get self name true None h
  = Ret x (<[l := Queue.mk (Queue.maxsize q) rest]> h).
Proof.
  intros Hn Hl Hi. unfold BufferManager.get.
  rewrite (checked_registered _ _ _ _ _ _ _ Hn Hl).
  unfold Queue.get. rewrite Hi. reflexivity.
Qed.

(** The default [get] on an empty registered buffer waits. *)
Lemma get_empty_blocks self name l h q :
  self !! name = Some l → h !! l = Some q → Queue.items q = [] →
  BufferManager.get self name true None h = Block h.
Proof.
  intros Hn Hl Hi. unfold BufferManager.get.
  rewrite (checked_registered _ _ _ _ _ _ _ Hn Hl).
  unfold Queue.get. rewrite Hi. cbv beta iota. by rewrite list_insert_id.
Qed.


Lemma full_spec q :
  Queue.full q = true ↔ 0 < Queue.maxsize q ∧ Queue.maxsize q <= Z.of_nat (length (Queue.items q)).
Proof.
  unfold Queue.full. rewrite andb_true_iff, !bool_decide_eq_true. reflexivity.
Qed.

End BufferManagerFacts.

Section BufferManagerProtocol.
Context {A : Type}.
Implicit Types (self : gmap string BufferManager.loc) (h : BufferManager.heap A).
Implicit Types (q : Queue.t A) (name : string) (l : BufferManager.loc).





Lemma register_buffer_fresh self name maxsize h :
  self !! name = None → maxsize <= Queue.SEM_VALUE_MAX →
  BufferManager.register_buffer self name maxsize h
  = Ret (<[name := length h]> self) (h ++ [Queue.mk maxsize []]).
Proof.
  intros Hn Hmax. unfold BufferManager.register_buffer, BufferManager.check_buffer_registered.
  rewrite (contains_None _ _ Hn). unfold Queue.init.
  rewrite bool_decide_eq_false_2 by lia. done.
Qed.

Lemma register_buffer_overflow self name maxsize h :
  self !! name = None → Queue.SEM_VALUE_MAX < maxsize →
  BufferManager.register_buffer self name maxsize h = Raise (Exn OverflowError "") h.
Proof.
  intros Hn Hmax. unfold BufferManager.register_buffer, BufferManager.check_buffer_registered.
  rewrite (contains_None _ _ Hn). unfold Queue.init.
  rewrite bool_decide_eq_true_2 by lia. done.
Qed.

Lemma register_buffer_wf self name maxsize h :
  wf self h → wf (<[name := length h]> self) (h ++ [Queue.mk maxsize []]).
Proof.
  intros Hwf n l. rewrite length_app. simpl.
  destruct (decide (name = n)) as [->|Hne].
  - rewrite lookup_insert_eq. intros [= <-]. lia.
  - rewrite lookup_insert_ne by done. intros Hl. specialize (Hwf _ _ Hl). lia.
Qed.

(** The dictionary comprehension of [get_sub_manager] leaves the heap as
    it is; it fails on the first unregistered name. *)
Lemma sub_buffers_outcome self names : ∀ acc h,
  if forallb (BufferManager.__contains__ self) names
  then ∃ buffers, BufferManager.sub_buffers self names acc h = Ret buffers h
  else ∃ e, BufferManager.sub_buffers self names acc h = Raise e h ∧ exn_cls e = KeyError.
Proof.
  induction names as [|n names IH]; intros acc h; simpl.
  - by eexists.
  - unfold bind, BufferManager.lookup_buffer.
    destruct (self !! n) as [l|] eqn:Hn.
    + rewrite (contains_Some _ _ _ Hn). simpl. apply IH.
    + rewrite (contains_None _ _ Hn). simpl. by eexists.
Qed.

(** [C1] (as the code has it). [get_sub_manager] never returns a view:
    for every manager, every heap and every list of names the call raises
    and leaves the heap untouched.  When all the names are registered the
    exception is the [TypeError] of [BufferManager(buffers)], whose
    [__init__] accepts no argument; otherwise it is the [KeyError] of the
    dictionary lookup. *)
Theorem get_sub_manager_always_raises self names h :
  ∃ e, BufferManager.get_sub_manager self names h = Raise e h ∧
       exn_cls e = if forallb (BufferManager.__contains__ self) names
                   then TypeError else KeyError.
Proof.
  unfold BufferManager.get_sub_manager, bind.
  pose proof (sub_buffers_outcome self names ∅ h) as H.
  destruct (forallb _ names).
  - destruct H as [buffers ->]. simpl. by eexists.
  - destruct H as (e & -> & He). by eexists.
Qed.


(** [C8]. On a registered buffer that is bounded and full, [try_put]
    returns [False] and the heap, hence the buffer, is as before; on a
    registered buffer that is not full it returns [True] and the item is
    the newest of the buffer. *)
Theorem try_put_full_or_not self name l h q (v : A) :
  self !! name = Some l → h !! l = Some q →
  (0 < Queue.maxsize q ∧ Queue.maxsize q <= Z.of_nat (length (Queue.items q)) →
     BufferManager.try_put self name v h = Ret false h)
  ∧ (Queue.full q = false →
     ∃ h', BufferManager.try_put self name v h = Ret true h' ∧
           contents self h' name = Some (Queue.items q ++ [v]) ∧
           ∀ l', l' ≠ l → h' !! l' = h !! l').
Proof.
  intros Hn Hl.
  pose proof (lookup_lt_Some _ _ _ Hl) as Hlt.
  unfold BufferManager.try_put, BufferManager.check_buffer_registered.
  rewrite (contains_Some _ _ _ Hn). simpl.
  unfold try_except, bind, BufferManager.lookup_buffer. rewrite Hn. simpl.
  unfold BufferManager.on_queue. rewrite Hl.
  unfold Queue.put_nowait, Queue.put.
  split.
  - intros Hfull. apply full_spec in Hfull. rewrite Hfull. simpl.
    by rewrite list_insert_id.
  - intros Hroom. rewrite Hroom. simpl. eexists. split; [done|]. split.
    + unfold contents. rewrite Hn. simpl. by rewrite list_lookup_insert_eq.
    + intros l' Hne. by rewrite list_lookup_insert_ne.
Qed.
End BufferManagerProtocol.

Section RegistryMisuse.
Context {A : Type}.
Implicit Types (self : gmap string BufferManager.loc) (h : BufferManager.heap A).

Lemma list_ascii_of_string_app (s1 s2 : string) :
  String.list_ascii_of_string (s1 +:+ s2)
  = String.list_ascii_of_string s1 ++ String.list_ascii_of_string s2.
Proof. induction s1 as [|c s1 IH]; simpl; [done|]. by rewrite IH. Qed.

(** The two messages of the decorator never coincide, whatever the method
    and buffer names: thirteen characters from the end one has the [y] of
    "already" and the other the [t] of "not". *)
Lemma messages_differ (f n g m : string) :
  BufferManager.already_registered_msg f n ≠ BufferManager.not_registered_msg g m.
Proof.
  unfold BufferManager.already_registered_msg, BufferManager.not_registered_msg.
  intros H.
  apply (f_equal String.list_ascii_of_string) in H.
  rewrite !list_ascii_of_string_app in H.
  apply (f_equal (fun l => take 13 (reverse l))) in H.
  rewrite !reverse_app, <- !app_assoc in H.
  rewrite !take_app_le in H by (vm_compute; lia).
  vm_compute in H. discriminate H.
Qed.

(** [C5] (as the code has it). For every registry and every name:
    [register_buffer] on the name, if it is registered, raises
    [ValueError]; [put], [try_put], [get], [is_empty] and [is_full] on the
    name, if it is not registered, raise [ValueError] too.  The heap is left
    as it is.  The two errors have one class and are told apart by their
    message only. *)
Theorem misuse_raises_ValueError self h (name : string) :
  (is_Some (self !! name) →
   ∀ maxsize,
     BufferManager.register_buffer self name maxsize h
     = Raise (Exn ValueError (BufferManager.already_registered_msg "register_buffer" name)) h)
  ∧ (self !! name = None →
     (∀ (v : A) block timeout,
        BufferManager.put self name v block timeout h
        = Raise (Exn ValueError (BufferManager.not_registered_msg "put" name)) h)
     ∧ (∀ v : A,
          BufferManager.try_put self name v h
          = Raise (Exn ValueError (BufferManager.not_registered_msg "try_put" name)) h)
     ∧ (∀ block timeout,
          BufferManager.get self name block timeout h
          = Raise (Exn ValueError (BufferManager.not_registered_msg "get" name)) h)
     ∧ BufferManager.is_empty self name h
       = Raise (Exn ValueError (BufferManager.not_registered_msg "is_empty" name)) h
     ∧ BufferManager.is_full self name h
       = Raise (Exn ValueError (BufferManager.not_registered_msg "is_full" name)) h)
  ∧ (∀ func_name func_name' name' : string,
       BufferManager.already_registered_msg func_name name
       ≠ BufferManager.not_registered_msg func_name' name').
Proof.
  split; [|split].
  - intros [l Ht] maxsize.
    unfold BufferManager.register_buffer, BufferManager.check_buffer_registered.
    by rewrite (contains_Some _ _ _ Ht).
  - intros Hf. repeat split; intros; by apply checked_unregistered.
  - intros. apply messages_differ.
Qed.
End RegistryMisuse.

(** [C5], the claim as stated fails: the duplicate registration of ["X"] and
    a [get] on the never registered ["X"] raise exceptions of the same
    class, [ValueError]. *)
Lemma misuse_errors_same_class :
  raised_class (BufferManager.register_buffer (A := Z) {["X" := 0%nat]} "X" 0 [Queue.mk 0 []])
  = Some ValueError
  ∧ raised_class (BufferManager.get (A := Z) ∅ "X" true None []) = Some ValueError
  ∧ ¬ (raised_class (BufferManager.register_buffer (A := Z) {["X" := 0%nat]} "X" 0 [Queue.mk 0 []])
       ≠ raised_class (BufferManager.get (A := Z) ∅ "X" true None [])).
Proof. vm_compute. repeat split; [done..|]. intros H. by apply H. Qed.

Lemma misuse_raises_ValueError_witness :
  BufferManager.register_buffer (A := Z) {["X" := 0%nat]} "X" 4 [Queue.mk 0 []]
  = Raise (Exn ValueError (BufferManager.already_registered_msg "register_buffer" "X"))
          [Queue.mk 0 []]
  ∧ BufferManager.get (A := Z) ∅ "X" true None []
    = Raise (Exn ValueError (BufferManager.not_registered_msg "get" "X")) []
  ∧ BufferManager.is_empty (A := Z) ∅ "X" []
    = Raise (Exn ValueError (BufferManager.not_registered_msg "is_empty" "X")) [].
Proof.
  split; [|split].
  - apply (proj1 (misuse_raises_ValueError (A := Z) {["X" := 0%nat]} [Queue.mk 0 []] "X")).
    by eexists.
  - apply (proj1 (proj2 (misuse_raises_ValueError (A := Z) ∅ [] "X"))). reflexivity.
  - apply (proj1 (proj2 (misuse_raises_ValueError (A := Z) ∅ [] "X"))). reflexivity.
Defined.


Lemma try_put_full_or_not_witness :
  BufferManager.try_put (A := Z) {["X" := 0%nat]} "X" 7 [Queue.mk 1 [5]]
  = Ret false [Queue.mk 1 [5]]
  ∧ ∃ h', BufferManager.try_put (A := Z) {["X" := 0%nat]} "X" 7 [Queue.mk 2 [5]] = Ret true h' ∧
          contents {["X" := 0%nat]} h' "X" = Some [5; 7] ∧
          ∀ l', l' ≠ 0%nat → h' !! l' = [Queue.mk 2 [5]] !! l'.
Proof.
  split.
  - apply (try_put_full_or_not (A := Z) {["X" := 0%nat]} "X" 0%nat [Queue.mk 1 [5]] (Queue.mk 1 [5]) 7);
      [reflexivity | reflexivity | simpl; lia].
  - apply (try_put_full_or_not (A := Z) {["X" := 0%nat]} "X" 0%nat [Queue.mk 2 [5]] (Queue.mk 2 [5]) 7);
      [reflexivity | reflexivity | reflexivity].
Defined.

(** ** Facts about node.py, for any registry *)

Section NodeFacts.
Context {Msg Info Mgr St : Type} `{!BufferRegistry Mgr St Msg}.
Context (msg_truthy : Msg → bool).
Context (update_route_info : Msg → Node.t Msg Mgr → Info → Msg).
Implicit Types (self : Node.t Msg Mgr) (w : Node.world Msg Info St).
Implicit Types (input_msgs : gmap string (option Msg)).

Local Abbreviation run_iteration := (Node.run_iteration msg_truthy update_route_info).
Local Abbreviation dispatch := (Node.dispatch (Info := Info)).

(** Once a prefix of the bindings was fetched, the fetch loop goes on with
    the rest from the store and the result reached so far. *)
Lemma fetch_inputs_app (bm : Mgr) pre bs : ∀ res0 (s0 : St) res1 s1,
  Node.fetch_inputs bm pre res0 s0 = Ret (Node.Ready res1) s1 →
  Node.fetch_inputs bm (pre ++ bs) res0 s0 = Node.fetch_inputs bm bs res1 s1.
Proof.
  induction pre as [|b pre IH]; intros res0 s0 res1 s1 H; simpl in *.
  - by injection H as -> ->.
  - destruct (bm_get bm (Node.buffer_name b) true None s0) as [d s|e s|s]; [by apply IH| |done].
    destruct (bool_decide _); [|done].
    destruct (Node.essential b); [done|by apply IH].
Qed.

(** Pushing to the output buffers emits no event. *)
Lemma dispatch_trace self outs (m : Msg) : ∀ w,
  Node.trace (final_store (dispatch self outs m w)) = Node.trace w.
Proof.
  induction outs as [|o outs IH]; intros w; simpl; [done|].
  destruct (Node.runner self) as [r|]; [|done].
  unfold bind, Node.lift.
  destruct (bm_put _ _ _ _ _ _) as [[] s|e s|s]; simpl; [|done..].
  by rewrite IH.
Qed.

Lemma never_toggled_enabled self : never_toggled self → Node._enabled self = true.
Proof.
  induction 1 as [c name key fps ival self Hinit| | |self r self' _ IH Hset
                 |self n self' _ IH Hreg|self k self' _ IH Hreg]; simpl; try done.
  - unfold Node.__init__ in Hinit. simpl in Hinit.
    destruct (Node.key_truthy key); [destruct (negb _); [done|]|]; by injection Hinit as <-.
  - unfold Node.set_runner, Node.register_hotkey_handler in Hset.
    destruct (Node._runner self); [done|]. simpl in Hset.
    destruct (Node.enable_key self) as [[k|k]|];
      [destruct (negb _)..|]; by injection Hset as <-.
  - unfold Node.register_event_handler in Hreg.
    destruct (Node.runner self); [|done]. by injection Hreg as <-.
  - unfold Node.register_hotkey_handler in Hreg.
    destruct (Node.runner self); [|done]. by injection Hreg as <-.
Qed.

(** What one pass of an enabled node adds to the trace. *)
Lemma enabled_pass_trace self info w :
  Node._enabled self = true →
  ∃ suffix,
    Node.trace (final_store (run_iteration self info w)) = Node.trace w ++ suffix ∧
    Forall (λ e, is_bypass_call e = false) suffix ∧
    ∀ input_msgs s',
      Node._get_input_from_buffer self (Node.bufs w) = Ret (Node.Ready input_msgs) s' →
      ∃ rest, suffix = Node.CallProcess input_msgs :: rest.
Proof.
  intros E. unfold Node.run_iteration, bind, Node.lift.
  destruct (Node._get_input_from_buffer self (Node.bufs w)) as [[|msgs] s|e s|s]; simpl.
  - unfold Node.sleep. destruct (Qle_bool 0 (Node.input_check_interval self)).
    + exists [Node.Sleep (Node.input_check_interval self)].
      split; [done|]. split; [by repeat constructor|]. intros ? ? [=].
    + exists []. split; [simpl; by rewrite app_nil_r|]. split; [done|]. intros ? ? [=].
  - rewrite E. simpl. unfold Node.call.
    destruct (Node.process (Node.class self) msgs) as [e|[m|]]; simpl.
    + exists [Node.CallProcess msgs]. split; [done|]. split; [by repeat constructor|].
      intros ? ? [= <- _]. by eexists.
    + destruct (msg_truthy m) eqn:Em; simpl; rewrite ?Em; simpl.
      * exists [Node.CallProcess msgs; Node.UpdateRouteInfo m info].
        split; [|split; [by repeat constructor|intros ? ? [= <- _]; by eexists]].
        destruct (msg_truthy (update_route_info m self info)); simpl.
        -- rewrite dispatch_trace. simpl. by rewrite <- app_assoc.
        -- by rewrite <- app_assoc.
      * exists [Node.CallProcess msgs].
        split; [done|]. split; [by repeat constructor|intros ? ? [= <- _]; by eexists].
    + exists [Node.CallProcess msgs].
      split; [done|]. split; [by repeat constructor|intros ? ? [= <- _]; by eexists].
  - exists []. split; [by rewrite app_nil_r|]. split; [done|]. intros ? ? [=].
  - exists []. split; [by rewrite app_nil_r|]. split; [done|]. intros ? ? [=].
Qed.

Lemma enabled_passes_trace self infos : ∀ w,
  Node._enabled self = true →
  ∃ suffix,
    Node.trace (final_store (Node.live msg_truthy update_route_info self (Node.Pass <$> infos) w))
    = Node.trace w ++ suffix ∧
    Forall (λ e, is_bypass_call e = false) suffix.
Proof.
  induction infos as [|info infos IH]; intros w E.
  - exists []. simpl. by rewrite app_nil_r.
  - destruct (enabled_pass_trace self info w E) as (s1 & H1 & F1 & _).
    rewrite fmap_cons. cbn [Node.live]. unfold bind.
    destruct (run_iteration self info w) as [[] w1|e w1|w1]; simpl in *.
    + destruct (IH w1 E) as (s2 & H2 & F2).
      exists (s1 ++ s2). rewrite H2, H1, app_assoc. split; [done|].
      by apply Forall_app.
    + by exists s1.
    + by exists s1.
Qed.
End NodeFacts.

Section NodeClaims.
Context {Msg Info Mgr St : Type} `{!BufferRegistry Mgr St Msg}.
Context (msg_truthy : Msg → bool).
Context (update_route_info : Msg → Node.t Msg Mgr → Info → Msg).
Implicit Types (self : Node.t Msg Mgr) (w : Node.world Msg Info St).
Implicit Types (input_msgs : gmap string (option Msg)).

Local Abbreviation run_iteration := (Node.run_iteration msg_truthy update_route_info).
Local Abbreviation run := (Node.run msg_truthy update_route_info).
Local Abbreviation live := (Node.live msg_truthy update_route_info).

(** [C6] (as the code has it). Construction raises [NotImplementedError]
    exactly when [enable_key] is truthy (a non-empty string or a non-zero
    integer) and the class does not override [bypass]; in every other case,
    which includes the keys [0] and the empty string, it returns the node. *)
Theorem init_fails_iff_truthy_key_without_bypass
        (c : Node.NodeClass Msg) name key fps ival :
  (Node.__init__ (Mgr := Mgr) c name key fps ival = inl (Exn NotImplementedError "")
   ↔ ((∃ s, key = Some (Node.KeyStr s) ∧ s ≠ "") ∨ (∃ z, key = Some (Node.KeyInt z) ∧ z ≠ 0))
     ∧ Node.bypass_override c = None)
  ∧ (Node.__init__ (Mgr := Mgr) c name key fps ival
     = inr (Node.mk c name None true key [] [] fps ival [])
     ↔ ¬ (((∃ s, key = Some (Node.KeyStr s) ∧ s ≠ "") ∨ (∃ z, key = Some (Node.KeyInt z) ∧ z ≠ 0))
          ∧ Node.bypass_override c = None)).
Proof.
  assert (Hk : Node.key_truthy key = true
               ↔ (∃ s, key = Some (Node.KeyStr s) ∧ s ≠ "")
                 ∨ (∃ z, key = Some (Node.KeyInt z) ∧ z ≠ 0)).
  { destruct key as [[s|z]|]; simpl.
    - rewrite negb_true_iff, bool_decide_eq_false. split.
      + intros Hs. left. by exists s.
      + intros [(s' & [= <-] & Hs)|(z & [=] & _)]. done.
    - rewrite negb_true_iff, bool_decide_eq_false. split.
      + intros Hz. right. by exists z.
      + intros [(s & [=] & _)|(z' & [= <-] & Hz)]. done.
    - split; [done|]. intros [(s & [=] & _)|(z & [=] & _)]. }
  assert (Hb : Node.is_bypass_overridden c = false ↔ Node.bypass_override c = None).
  { unfold Node.is_bypass_overridden. rewrite bool_decide_eq_false.
    destruct (Node.bypass_override c); split; try done.
    intros H. by destruct H. }
  unfold Node.__init__. simpl.
  destruct (Node.key_truthy key) eqn:Ek.
  - destruct (Node.is_bypass_overridden c) eqn:Eb; simpl.
    + split; split; try done.
      * intros [_ Hn]. apply Hb in Hn. congruence.
      * intros _ [_ Hn]. apply Hb in Hn. congruence.
    + split; split; try done.
      * intros _. split; [by apply Hk|by apply Hb].
      * intros Hn. exfalso. apply Hn. split; [by apply Hk|by apply Hb].
  - split; split; try done.
    + intros [Ht _]. apply Hk in Ht. congruence.
    + intros _ [Ht _]. apply Hk in Ht. congruence.
Qed.

(** [C9]. A node built by [__init__] and configured since has its
    [_enabled] flag set.  As long as the toggle has not fired, a pass whose
    inputs are ready is decided by [process] applied to these inputs: the
    pass raises what [process] raises, ends when its result is [None] or
    falsy, and otherwise attaches the route record and dispatches; [bypass]
    has no part in it.  No pass calls [bypass], however many passes are
    made, and the passes leave the node as it is. *)
Theorem never_toggled_node_processes self :
  never_toggled self →
  Node._enabled self = true
  ∧ (∀ info w input_msgs s',
       Node._get_input_from_buffer self (Node.bufs w) = Ret (Node.Ready input_msgs) s' →
       run_iteration self info w
       = match Node.process (Node.class self) input_msgs with
         | inl e =>
             Raise e (Node.World s' (Node.trace w ++ [Node.CallProcess input_msgs]))
         | inr None =>
             Ret tt (Node.World s' (Node.trace w ++ [Node.CallProcess input_msgs]))
         | inr (Some m) =>
             if msg_truthy m then
               if msg_truthy (update_route_info m self info) then
                 Node.dispatch self (Node.output_buffers self)
                   (update_route_info m self info)
                   (Node.World s' (Node.trace w ++ [Node.CallProcess input_msgs;
                                                     Node.UpdateRouteInfo m info]))
               else
                 Ret tt (Node.World s' (Node.trace w ++ [Node.CallProcess input_msgs;
                                                          Node.UpdateRouteInfo m info]))
             else Ret tt (Node.World s' (Node.trace w ++ [Node.CallProcess input_msgs]))
         end)
  ∧ (∀ info w input_msgs s',
       Node._get_input_from_buffer self (Node.bufs w) = Ret (Node.Ready input_msgs) s' →
       ∃ rest,
         Node.trace (final_store (run_iteration self info w))
         = Node.trace w ++ Node.CallProcess input_msgs :: rest
         ∧ Forall (λ e, is_bypass_call e = false) rest)
  ∧ (∀ infos w,
       ∃ suffix,
         Node.trace (final_store (live self (Node.Pass <$> infos) w)) = Node.trace w ++ suffix
         ∧ Forall (λ e, is_bypass_call e = false) suffix)
  ∧ (∀ infos w self' w', live self (Node.Pass <$> infos) w = Ret self' w' → self' = self).
Proof.
  intros Hnt. pose proof (never_toggled_enabled self Hnt) as E.
  split; [done|]. split; [|split; [|split]].
  - intros info w input_msgs s' Hg.
    unfold Node.run_iteration, bind, Node.lift. rewrite Hg. simpl.
    rewrite E. simpl. unfold Node.call.
    destruct (Node.process (Node.class self) input_msgs) as [e|[m|]]; simpl; [done| |done].
    destruct (msg_truthy m) eqn:Em; simpl; rewrite ?Em; simpl; [|done].
    destruct (msg_truthy (update_route_info m self info)); simpl; by rewrite <- app_assoc.
  - intros info w input_msgs s' Hg.
    destruct (enabled_pass_trace msg_truthy update_route_info self info w E)
      as (suffix & Ht & Hf & Hfirst).
    destruct (Hfirst _ _ Hg) as [rest ->].
    exists rest. split; [done|]. by inversion Hf.
  - intros infos w. by apply enabled_passes_trace.
  - intros infos. induction infos as [|info infos IH]; intros w self' w'.
    + simpl. by intros [= <- _].
    + rewrite fmap_cons. cbn [Node.live]. unfold bind.
      destruct (run_iteration self info w) as [[] w1|e w1|w1]; [apply IH|done..].
Qed.

(** [C10]. In a pass whose inputs are ready, when the transform that is
    called ([process] if enabled, [bypass] if not) returns [None] or a
    message that is falsy, the pass ends there: its only event is the call,
    no route record is attached, and the buffers are as the input
    gathering left them, so nothing was put in an output buffer. *)
Theorem falsy_output_is_dropped self info w input_msgs s' out :
  Node._get_input_from_buffer self (Node.bufs w) = Ret (Node.Ready input_msgs) s' →
  chosen_transform self input_msgs = inr out →
  Node.truthy msg_truthy out = false →
  run_iteration self info w
  = Ret tt (Node.World s' (Node.trace w ++ [chosen_call self input_msgs])).
Proof.
  intros Hg Hout Hfalsy.
  unfold Node.run_iteration, bind, Node.lift. rewrite Hg. simpl.
  unfold chosen_transform, chosen_call in *.
  destruct (Node._enabled self); simpl; unfold Node.call; rewrite Hout; simpl.
  - destruct out as [m|]; simpl in *; [|done].
    rewrite Hfalsy. simpl. by rewrite Hfalsy.
  - destruct out as [m|]; simpl in *; [|done]. by rewrite Hfalsy.
Qed.
End NodeClaims.

(** ** Facts about node.py on the BufferManager of buffer.py *)

Section NodeOnBufferManager.
Context {Msg Info : Type}.
Context (msg_truthy : Msg → bool).
Context (update_route_info : Msg → Node.t Msg (gmap string BufferManager.loc) → Info → Msg).
Implicit Types (self : Node.t Msg (gmap string BufferManager.loc)).
Implicit Types (bm : gmap string BufferManager.loc) (h : BufferManager.heap Msg).

Local Abbreviation run_iteration := (Node.run_iteration msg_truthy update_route_info).
Local Abbreviation run := (Node.run msg_truthy update_route_info).



(** [C2] (as the code has it). The fetch loop calls [get] with its default
    arguments, blocking and without timeout, for inessential bindings too:
    when the readiness loop has passed, the bindings before an inessential
    one were fetched, and the buffer of that one is registered and empty,
    [_get_input_from_buffer] does not return, and neither does the pass of
    [run]. *)
Theorem inessential_empty_buffer_blocks self r pre b post l h h1 res1 q :
  Node._runner self = Some r →
  Node.input_buffers self = pre ++ b :: post →
  Node.essential b = false →
  Node.check_essential (Node.buffer_manager r) (Node.input_buffers self) h = Ret true h →
  Node.fetch_inputs (Node.buffer_manager r) pre
    (Node.default_inputs (Node.input_buffers self)) h = Ret (Node.Ready res1) h1 →
  Node.buffer_manager r !! Node.buffer_name b = Some l →
  h1 !! l = Some q → Queue.items q = [] →
  Node._get_input_from_buffer self h = Block h1
  ∧ ∀ info tr, run_iteration self info (Node.World h tr) = Block (Node.World h1 tr).
Proof.
  intros Hr Hbs Hess Hcheck Hpre Hl Hq Hi.
  assert (Hg : Node._get_input_from_buffer self h = Block h1).
  { unfold Node._get_input_from_buffer, Node.runner. rewrite Hr.
    unfold bind. rewrite Hcheck. rewrite Hbs at 1.
    rewrite (fetch_inputs_app _ _ _ _ _ _ _ Hpre).
    cbn [Node.fetch_inputs bm_get BufferManager_registry].
    by rewrite (get_empty_blocks _ _ _ _ _ Hl Hq Hi). }
  split; [done|].
  intros info tr. unfold Node.run_iteration, bind, Node.lift. simpl. by rewrite Hg.
Qed.

(** [C3] (as the code has it). A race on an essential binding: the
    readiness loop has passed, another consumer then acts, the bindings
    before the essential one are fetched, and the buffer of that one is by
    then empty.  The fetch does not fail: [get] waits, so the pass is not
    treated as not-ready, and the items already fetched stay out of their
    buffers, held by the waiting pass. *)
Theorem essential_fetch_race_waits self r pre b post l h h0 h1 res1 q
        (other : M (BufferManager.heap Msg) unit) :
  Node._runner self = Some r →
  Node.input_buffers self = pre ++ b :: post →
  Node.essential b = true →
  Node.check_essential (Node.buffer_manager r) (Node.input_buffers self) h = Ret true h →
  other h = Ret tt h0 →
  Node.fetch_inputs (Node.buffer_manager r) pre
    (Node.default_inputs (Node.input_buffers self)) h0 = Ret (Node.Ready res1) h1 →
  Node.buffer_manager r !! Node.buffer_name b = Some l →
  h1 !! l = Some q → Queue.items q = [] →
  raced_gather self other h = Block h1.
Proof.
  intros Hr Hbs Hess Hcheck Hother Hpre Hl Hq Hi.
  unfold raced_gather, Node.runner. rewrite Hr.
  unfold bind. rewrite Hcheck, Hother. rewrite Hbs at 1.
  rewrite (fetch_inputs_app _ _ _ _ _ _ _ Hpre).
  cbn [Node.fetch_inputs bm_get BufferManager_registry].
  by rewrite (get_empty_blocks _ _ _ _ _ Hl Hq Hi).
Qed.

End NodeOnBufferManager.

(** ** The statements at concrete nodes *)

Lemma inessential_empty_buffer_blocks_witness :
  Node._get_input_from_buffer
    (Demo.node Demo.Forward Demo.ab [Demo.binding "a" "x" true; Demo.binding "b" "y" false] [])
    [Queue.mk 0 [1]; Queue.mk 0 []]
  = Block [Queue.mk 0 []; Queue.mk 0 []]
  ∧ ∀ (info : unit) tr,
      Node.run_iteration Demo.msg_truthy Demo.update_route_info
        (Demo.node Demo.Forward Demo.ab [Demo.binding "a" "x" true; Demo.binding "b" "y" false] [])
        info (Node.World [Queue.mk 0 [1]; Queue.mk 0 []] tr)
      = Block (Node.World [Queue.mk 0 []; Queue.mk 0 []] tr).
Proof.
  apply (inessential_empty_buffer_blocks Demo.msg_truthy Demo.update_route_info
           (Demo.node Demo.Forward Demo.ab
              [Demo.binding "a" "x" true; Demo.binding "b" "y" false] [])
           (Node.Build_Runner Demo.ab)
           [Demo.binding "a" "x" true] (Demo.binding "b" "y" false) []
           1%nat [Queue.mk 0 [1]; Queue.mk 0 []] [Queue.mk 0 []; Queue.mk 0 []]
           {["x" := Some 1; "y" := None]} (Queue.mk 0 []));
    try reflexivity; vm_compute; reflexivity.
Defined.

(** The failing input of [C2] itself: one inessential binding on the empty
    buffer ["X"]. *)
Example lone_inessential_binding_blocks :
  Node._get_input_from_buffer
    (Demo.node Demo.Forward Demo.onlyX [Demo.binding "X" "x" false] []) [Queue.mk 0 []]
  = Block [Queue.mk 0 []].
Proof. vm_compute. reflexivity. Qed.

(** The failing input of [C1]: the view on the registered ["X"]. *)
Example sub_manager_of_X_raises :
  raised_class (BufferManager.get_sub_manager (A := Z) Demo.onlyX ["X"] [Queue.mk 0 []])
  = Some TypeError.
Proof. vm_compute. reflexivity. Qed.

(** A pass of the wired node on a truthy message: the message is fetched
    from ["X"], gets its route record and is put in ["Y"]. *)
Example wired_pass_forwards :
  Node.run_iteration Demo.msg_truthy Demo.update_route_info Demo.wired tt
    (Node.World [Queue.mk 0 [5]; Queue.mk 0 []] [])
  = Ret tt (Node.World [Queue.mk 0 []; Queue.mk 0 [6]]
                       [Node.CallProcess {["x" := Some 5]}; Node.UpdateRouteInfo 5 tt]).
Proof. vm_compute. reflexivity. Qed.

(** After the toggle fired, the same pass calls [bypass]; the class does not
    override it, so [Node.bypass] raises. *)
Example toggled_pass_bypasses :
  Node.live Demo.msg_truthy Demo.update_route_info Demo.wired [Node.ToggleFired; Node.Pass tt]
    (Node.World [Queue.mk 0 [5]; Queue.mk 0 []] [])
  = Raise (Exn NotImplementedError "")
          (Node.World [Queue.mk 0 []; Queue.mk 0 []] [Node.CallBypass {["x" := Some 5]}]).
Proof. vm_compute. reflexivity. Qed.

(** The failing input of [C3]: essential bindings on ["a"] and ["b"], one
    item in each, and another consumer that takes the item of ["b"] between
    the two loops.  The pass waits on ["b"], and ["a"] has lost its item. *)
Lemma essential_fetch_race_waits_witness :
  raced_gather
    (Demo.node Demo.Forward Demo.ab [Demo.binding "a" "x" true; Demo.binding "b" "y" true] [])
    Demo.take_b [Queue.mk 0 [1]; Queue.mk 0 [2]]
  = Block [Queue.mk 0 []; Queue.mk 0 []].
Proof.
  apply (essential_fetch_race_waits
           (Demo.node Demo.Forward Demo.ab
              [Demo.binding "a" "x" true; Demo.binding "b" "y" true] [])
           (Node.Build_Runner Demo.ab)
           [Demo.binding "a" "x" true] (Demo.binding "b" "y" true) []
           1%nat [Queue.mk 0 [1]; Queue.mk 0 [2]] [Queue.mk 0 [1]; Queue.mk 0 []]
           [Queue.mk 0 []; Queue.mk 0 []]
           {["x" := Some 1; "y" := None]} (Queue.mk 0 []) Demo.take_b);
    try reflexivity; vm_compute; reflexivity.
Defined.

(** The same without any other consumer: two bindings on one buffer that
    holds one item.  The readiness loop passes, the first fetch takes the
    item, and the essential fetch waits. *)
Example shared_buffer_essential_fetch_waits :
  Node._get_input_from_buffer
    (Demo.node Demo.Forward Demo.onlyX
       [Demo.binding "X" "x" false; Demo.binding "X" "y" true] [])
    [Queue.mk 0 [1]]
  = Block [Queue.mk 0 []].
Proof. vm_compute. reflexivity. Qed.


(** [C6], the claim as stated fails: with the key [0], or the empty string,
    and a class that does not override [bypass], construction returns the
    node. *)
Lemma falsy_key_without_bypass_constructs :
  Node.bypass_override Demo.Forward = None
  ∧ Node.__init__ (Mgr := unit) Demo.Forward None (Some (Node.KeyInt 0)) 30 Demo.interval
    = inr (Node.mk Demo.Forward None None true (Some (Node.KeyInt 0)) [] [] 30 Demo.interval [])
  ∧ Node.__init__ (Mgr := unit) Demo.Forward None (Some (Node.KeyStr "")) 30 Demo.interval
    = inr (Node.mk Demo.Forward None None true (Some (Node.KeyStr "")) [] [] 30 Demo.interval []).
Proof. repeat split. Qed.

Lemma wired_never_toggled : never_toggled Demo.wired.
Proof.
  apply (nt_runner
           (Node.register_output_buffer
              (Node.register_input_buffer
                 (Node.mk Demo.Forward None None true None [] [] 30 Demo.interval [])
                 "X" "x" true)
              (inl "Y"))
           (Node.Build_Runner Demo.xy)); [|reflexivity].
  apply nt_output, nt_input.
  by apply (nt_init Demo.Forward None None 30 Demo.interval).
Defined.

Lemma wired_reset_never_toggled : never_toggled Demo.wired_reset.
Proof. apply (nt_event Demo.wired "reset"); [apply wired_never_toggled|reflexivity]. Qed.

Lemma wired_reset_gathers :
  Node._get_input_from_buffer Demo.wired_reset [Queue.mk 0 [5]; Queue.mk 0 []]
  = Ret (Node.Ready {["x" := Some 5]}) [Queue.mk 0 []; Queue.mk 0 []].
Proof. vm_compute. reflexivity. Qed.

Lemma never_toggled_node_processes_witness :
  Node._enabled Demo.wired_reset = true
  ∧ Node.run_iteration Demo.msg_truthy Demo.update_route_info Demo.wired_reset tt
      (Node.World [Queue.mk 0 [5]; Queue.mk 0 []] [])
    = Ret tt (Node.World [Queue.mk 0 []; Queue.mk 0 [6]]
                [Node.CallProcess {["x" := Some 5]}; Node.UpdateRouteInfo 5 tt]).
Proof.
  pose proof (never_toggled_node_processes (Info := unit) (St := BufferManager.heap Z)
                Demo.msg_truthy Demo.update_route_info Demo.wired_reset
                wired_reset_never_toggled)
    as (H1 & H2 & _).
  split; [exact H1|].
  rewrite (H2 tt (Node.World [Queue.mk 0 [5]; Queue.mk 0 []] []) {["x" := Some 5]}
              [Queue.mk 0 []; Queue.mk 0 []] wired_reset_gathers).
  vm_compute. reflexivity.
Defined.

Lemma falsy_output_is_dropped_witness :
  Node.run_iteration Demo.msg_truthy Demo.update_route_info Demo.wired tt
    (Node.World [Queue.mk 0 [0]; Queue.mk 0 []] [])
  = Ret tt (Node.World [Queue.mk 0 []; Queue.mk 0 []]
                       ([] ++ [chosen_call Demo.wired {["x" := Some 0]}])).
Proof.
  apply (falsy_output_is_dropped Demo.msg_truthy Demo.update_route_info Demo.wired tt
           (Node.World [Queue.mk 0 [0]; Queue.mk 0 []] []) {["x" := Some 0]}
           [Queue.mk 0 []; Queue.mk 0 []] (Some 0)).
  - vm_compute. reflexivity.
  - vm_compute. reflexivity.
  - reflexivity.
Defined.

(** ** Further facts about buffer.py *)

Section BufferManagerFrame.
Context {A : Type}.
Implicit Types (self : gmap string BufferManager.loc) (h : BufferManager.heap A).
Implicit Types (q : Queue.t A) (name : string) (l : BufferManager.loc).

(** A checked queue method either leaves the heap as it is or rewrites the
    one cell of the named buffer with what the queue method made of it. *)
Lemma checked_final_store {R} fname (m : M (Queue.t A) R) self name h :
  final_store (BufferManager.check_buffer_registered true fname
      (fun self name =>
         (let* l := BufferManager.lookup_buffer self name in
          BufferManager.on_queue l m)%py) self name h) = h
  ∨ ∃ l q, self !! name = Some l ∧ h !! l = Some q ∧
           final_store (BufferManager.check_buffer_registered true fname
             (fun self name =>
                (let* l := BufferManager.lookup_buffer self name in
                 BufferManager.on_queue l m)%py) self name h)
           = <[l := final_store (m q)]> h.
Proof.
  destruct (self !! name) as [l|] eqn:Hn.
  - destruct (h !! l) as [q|] eqn:Hl.
    + right. exists l, q. split; [done|]. split; [done|].
      rewrite (checked_registered _ _ _ _ _ _ _ Hn Hl). by destruct (m q).
    + left. unfold BufferManager.check_buffer_registered.
      rewrite (contains_Some _ _ _ Hn). simpl.
      unfold bind, BufferManager.lookup_buffer. rewrite Hn. simpl.
      unfold BufferManager.on_queue. by rewrite Hl.
  - left. by rewrite checked_unregistered.
Qed.

Lemma put_final_store self name (v : A) block timeout h :
  final_store (BufferManager.put self name v block timeout h) = h
  ∨ ∃ l q, self !! name = Some l ∧ h !! l = Some q ∧
           final_store (BufferManager.put self name v block timeout h)
           = <[l := Queue.mk (Queue.maxsize q) (Queue.items q ++ [v])]> h.
Proof.
  unfold BufferManager.put.
  destruct (checked_final_store "put" (Queue.put v block timeout) self name h)
    as [H|(l & q & Hn & Hl & H)]; [by left|].
  rewrite H. unfold Queue.put.
  destruct (Queue.full q).
  - left. destruct block, timeout; simpl; by rewrite list_insert_id.
  - right. by exists l, q.
Qed.

Lemma get_final_store self name block timeout h :
  final_store (BufferManager.get self name block timeout h) = h
  ∨ ∃ l q x rest, self !! name = Some l ∧ h !! l = Some q ∧ Queue.items q = x :: rest ∧
           final_store (BufferManager.get self name block timeout h)
           = <[l := Queue.mk (Queue.maxsize q) rest]> h.
Proof.
  unfold BufferManager.get.
  destruct (checked_final_store "get" (Queue.get block timeout) self name h)
    as [H|(l & q & Hn & Hl & H)]; [by left|].
  rewrite H. unfold Queue.get.
  destruct (Queue.items q) as [|x rest] eqn:Hi.
  - left. destruct block, timeout; simpl; by rewrite list_insert_id.
  - right. by exists l, q, x, rest.
Qed.

Lemma try_put_final_store self name (v : A) h :
  final_store (BufferManager.try_put self name v h) = h
  ∨ ∃ l q, self !! name = Some l ∧ h !! l = Some q ∧
           final_store (BufferManager.try_put self name v h)
           = <[l := Queue.mk (Queue.maxsize q) (Queue.items q ++ [v])]> h.
Proof.
  unfold BufferManager.try_put, BufferManager.check_buffer_registered.
  destruct (self !! name) as [l|] eqn:Hn.
  - rewrite (contains_Some _ _ _ Hn). simpl.
    unfold try_except, bind, BufferManager.lookup_buffer. rewrite Hn. simpl.
    unfold BufferManager.on_queue.
    destruct (h !! l) as [q|] eqn:Hl; [|by left].
    unfold Queue.put_nowait, Queue.put.
    destruct (Queue.full q); simpl.
    + left. by rewrite list_insert_id.
    + right. by exists l, q.
  - rewrite (contains_None _ _ Hn). by left.
Qed.

(** Rewriting the cell of one buffer shows in no other buffer of a manager
    without aliases. *)
Lemma contents_insert_other self h name other l q' :
  no_alias self → self !! name = Some l → other ≠ name →
  contents self (<[l := q']> h) other = contents self h other.
Proof.
  intros Hna Hn Hne. unfold contents.
  destruct (self !! other) as [l'|] eqn:Ho; simpl; [|done].
  rewrite list_lookup_insert_ne; [done|].
  intros ->. apply Hne. by apply (Hna other name l').
Qed.

Lemma same_capacities_insert h l q q' :
  h !! l = Some q → Queue.maxsize q' = Queue.maxsize q →
  same_capacities h (<[l := q']> h).
Proof.
  intros Hl Hm. split; [by rewrite length_insert|].
  intros l'. destruct (decide (l = l')) as [<-|Hne].
  - rewrite list_lookup_insert_eq by (by eapply lookup_lt_Some).
    rewrite Hl. simpl. by rewrite Hm.
  - by rewrite list_lookup_insert_ne.
Qed.

Lemma same_capacities_refl h : same_capacities h h.
Proof. by split. Qed.

(** [X1]. [register_buffer] on a free name of a well-formed manager without
    aliases.  With a [maxsize] the queue can be made with, at most
    [SEM_VALUE_MAX], it returns a manager that is again well-formed and
    without aliases; the new buffer is empty, and every other name denotes
    the queue it denoted, with the items it had.  With a larger [maxsize]
    it raises [OverflowError] and registers nothing. *)
Theorem register_buffer_adds_an_empty_buffer self h name maxsize :
  wf self h → no_alias self → self !! name = None →
  (maxsize <= Queue.SEM_VALUE_MAX →
   ∃ self' h',
     BufferManager.register_buffer self name maxsize h = Ret self' h' ∧
     wf (A := A) self' h' ∧ no_alias self' ∧
     contents self' h' name = Some [] ∧
     ∀ other, other ≠ name →
              self' !! other = self !! other ∧
              contents self' h' other = contents self h other)
  ∧ (Queue.SEM_VALUE_MAX < maxsize →
     BufferManager.register_buffer self name maxsize h = Raise (Exn OverflowError "") h).
Proof.
  intros Hwf Hna Hfree. split; [|by apply register_buffer_overflow].
  intros Hmax.
  exists (<[name := length h]> self), (h ++ [Queue.mk maxsize []]).
  split; [by apply register_buffer_fresh|].
  split; [by apply register_buffer_wf|]. split; [|split].
  - intros n1 n2 l.
    destruct (decide (name = n1)) as [<-|H1], (decide (name = n2)) as [<-|H2];
      rewrite ?lookup_insert_eq, ?lookup_insert_ne by done; try done.
    + intros [= <-] H. apply Hwf in H. lia.
    + intros H [= <-]. apply Hwf in H. lia.
    + apply Hna.
  - unfold contents. rewrite lookup_insert_eq. simpl.
    by rewrite list_lookup_middle.
  - intros other Hne. rewrite lookup_insert_ne by done. split; [done|].
    unfold contents. rewrite lookup_insert_ne by done.
    destruct (self !! other) as [l|] eqn:Ho; simpl; [|done].
    by rewrite lookup_app_l by (by eapply Hwf).
Qed.

(** [X2]. In a manager without aliases, [put], [try_put] and [get] on one
    name, whatever their arguments and however they end, leave the items of
    every other buffer as they were. *)
Theorem other_buffers_are_untouched self h name other (v : A) block timeout :
  no_alias self → other ≠ name →
  contents self (final_store (BufferManager.put self name v block timeout h)) other
  = contents self h other
  ∧ contents self (final_store (BufferManager.try_put self name v h)) other
    = contents self h other
  ∧ contents self (final_store (BufferManager.get self name block timeout h)) other
    = contents self h other.
Proof.
  intros Hna Hne. split; [|split].
  - destruct (put_final_store self name v block timeout h) as [->|(l & q & Hn & _ & ->)];
      [done|by eapply contents_insert_other].
  - destruct (try_put_final_store self name v h) as [->|(l & q & Hn & _ & ->)];
      [done|by eapply contents_insert_other].
  - destruct (get_final_store self name block timeout h)
      as [->|(l & q & x & rest & Hn & _ & _ & ->)];
      [done|by eapply contents_insert_other].
Qed.

(** [X3]. [put], [try_put] and [get] never add or remove a queue and never
    change the capacity of one: the heap they leave has the same queues with
    the same [maxsize]. *)
Theorem capacities_never_change self h name (v : A) block timeout :
  same_capacities h (final_store (BufferManager.put self name v block timeout h))
  ∧ same_capacities h (final_store (BufferManager.try_put self name v h))
  ∧ same_capacities h (final_store (BufferManager.get self name block timeout h)).
Proof.
  split; [|split].
  - destruct (put_final_store self name v block timeout h) as [->|(l & q & _ & Hl & ->)];
      [apply same_capacities_refl|by eapply same_capacities_insert].
  - destruct (try_put_final_store self name v h) as [->|(l & q & _ & Hl & ->)];
      [apply same_capacities_refl|by eapply same_capacities_insert].
  - destruct (get_final_store self name block timeout h)
      as [->|(l & q & x & rest & _ & Hl & _ & ->)];
      [apply same_capacities_refl|by eapply same_capacities_insert].
Qed.



(** The exception classes of [get]: the [ValueError] of the decorator,
    [queue.Empty], or the mark of a location without a cell. *)
Lemma get_raised_class self name block timeout h :
  raised_class (BufferManager.get (A := A) self name block timeout h)
  ∈ [None; Some ValueError; Some Empty; Some InternalError].
Proof.
  unfold BufferManager.get, BufferManager.check_buffer_registered.
  destruct (self !! name) as [l|] eqn:Hn.
  - rewrite (contains_Some _ _ _ Hn). simpl.
    unfold bind, BufferManager.lookup_buffer. rewrite Hn. simpl.
    unfold BufferManager.on_queue.
    destruct (h !! l) as [q|]; [|simpl; set_solver].
    unfold Queue.get. destruct (Queue.items q); [|simpl; set_solver].
    destruct block, timeout; simpl; set_solver.
  - rewrite (contains_None _ _ Hn). simpl. set_solver.
Qed.

(** [X6]. [get] never raises [IndexError] or [KeyError], whatever the
    manager, the heap and the arguments: the two classes that
    [_get_input_from_buffer] catches do not come from this registry. *)
Theorem get_raises_neither_IndexError_nor_KeyError self name block timeout h :
  raised_class (BufferManager.get (A := A) self name block timeout h) ≠ Some IndexError
  ∧ raised_class (BufferManager.get (A := A) self name block timeout h) ≠ Some KeyError.
Proof.
  pose proof (get_raised_class self name block timeout h) as H.
  split; intros E; rewrite E in H; set_solver.
Qed.

(** [X7]. [get_info] changes nothing and reports, for a registered buffer,
    the number of items in it; after a [put] that found room it reports one
    more for that buffer. *)
Theorem get_info_counts_items self name l h q (v : A) block timeout :
  self !! name = Some l → h !! l = Some q → Queue.full q = false →
  ∃ info h' info',
    BufferManager.get_info self h = Ret info h
    ∧ info !! name = Some (length (Queue.items q))
    ∧ BufferManager.put self name v block timeout h = Ret tt h'
    ∧ BufferManager.get_info self h' = Ret info' h'
    ∧ info' !! name = Some (S (length (Queue.items q))).
Proof.
  intros Hn Hl Hf. pose proof (lookup_lt_Some _ _ _ Hl) as Hlt.
  eexists _, _, _. split; [reflexivity|]. split; [|split; [by apply put_registered|]].
  - rewrite lookup_omap, Hn. simpl. by rewrite Hl.
  - split; [reflexivity|]. rewrite lookup_omap, Hn. simpl.
    rewrite list_lookup_insert_eq by done. simpl.
    unfold Queue.qsize. simpl. rewrite length_app. simpl. f_equal. lia.
Qed.
End BufferManagerFrame.

(** ** Further facts about node.py, for any registry *)

Section NodeLifecycle.
Context {Msg Info Mgr St : Type} `{!BufferRegistry Mgr St Msg}.
Context (msg_truthy : Msg → bool).
Context (update_route_info : Msg → Node.t Msg Mgr → Info → Msg).
Implicit Types (self : Node.t Msg Mgr) (w : Node.world Msg Info St).
Implicit Types (bs : list Node.InputBinding).

Local Abbreviation run_iteration := (Node.run_iteration msg_truthy update_route_info).
Local Abbreviation live := (Node.live msg_truthy update_route_info).
Local Abbreviation dispatch := (Node.dispatch (Info := Info)).

Lemma default_inputs_dom bs : ∀ acc : gmap string (option Msg),
  dom (foldl (λ result buffer_info, <[Node.input_name buffer_info := None]> result) acc bs)
  = dom acc ∪ list_to_set (Node.input_name <$> bs).
Proof.
  clear msg_truthy update_route_info.
  induction bs as [|b bs IH]; intros acc; simpl.
  - set_solver.
  - rewrite IH, dom_insert_L. set_solver.
Qed.

Lemma fetch_inputs_dom (bm : Mgr) bs : ∀ res (s : St) res' s',
  Node.fetch_inputs bm bs res s = Ret (Node.Ready res') s' →
  dom res' = dom res ∪ list_to_set (Node.input_name <$> bs).
Proof.
  clear msg_truthy update_route_info.
  induction bs as [|b bs IH]; intros res s res' s' H; simpl in *.
  - injection H as <- _. set_solver.
  - destruct (bm_get bm (Node.buffer_name b) true None s) as [d s1|e s1|s1]; [| |done].
    + rewrite (IH _ _ _ _ H), dom_insert_L. set_solver.
    + destruct (bool_decide _); [|done].
      destruct (Node.essential b); [done|].
      rewrite (IH _ _ _ _ H), dom_insert_L. set_solver.
Qed.

(** [X8]. When [_get_input_from_buffer] returns [(True, result)], the keys
    of [result] are exactly the logical input names of the registered input
    bindings, whatever the registry. *)
Theorem ready_inputs_have_the_registered_names self (s s' : St) res :
  Node._get_input_from_buffer self s = Ret (Node.Ready res) s' →
  dom res = list_to_set (Node.input_name <$> Node.input_buffers self).
Proof.
  clear msg_truthy update_route_info.
  unfold Node._get_input_from_buffer.
  destruct (Node.runner self) as [r|]; [|done].
  unfold bind.
  destruct (Node.check_essential _ _ s) as [[|] s1|e s1|s1]; try done.
  intros H. rewrite (fetch_inputs_dom _ _ _ _ _ _ H).
  unfold Node.default_inputs. rewrite default_inputs_dom. set_solver.
Qed.

(** What one pass of a disabled node adds to the trace. *)
Lemma disabled_pass_trace self info w :
  Node._enabled self = false →
  ∃ suffix,
    Node.trace (final_store (run_iteration self info w)) = Node.trace w ++ suffix ∧
    Forall (λ e, is_enabled_side e = false) suffix ∧
    ∀ input_msgs s',
      Node._get_input_from_buffer self (Node.bufs w) = Ret (Node.Ready input_msgs) s' →
      suffix = [Node.CallBypass input_msgs].
Proof.
  intros E. unfold Node.run_iteration, bind, Node.lift.
  destruct (Node._get_input_from_buffer self (Node.bufs w)) as [[|msgs] s|e s|s]; simpl.
  - unfold Node.sleep. destruct (Qle_bool 0 (Node.input_check_interval self)).
    + exists [Node.Sleep (Node.input_check_interval self)].
      split; [done|]. split; [by repeat constructor|]. intros ? ? [=].
    + exists []. split; [simpl; by rewrite app_nil_r|]. split; [done|]. intros ? ? [=].
  - rewrite E. simpl. unfold Node.call.
    exists [Node.CallBypass msgs].
    split; [|split; [by repeat constructor|by intros ? ? [= <- _]]].
    destruct (Node.bypass (Node.class self) msgs) as [e|[m|]]; simpl; try done.
    destruct (msg_truthy m); simpl; [|done].
    by rewrite (dispatch_trace self).
  - exists []. split; [by rewrite app_nil_r|]. split; [done|]. intros ? ? [=].
  - exists []. split; [by rewrite app_nil_r|]. split; [done|]. intros ? ? [=].
Qed.

Lemma disabled_passes_trace self infos : ∀ w,
  Node._enabled self = false →
  ∃ suffix,
    Node.trace (final_store (live self (Node.Pass <$> infos) w)) = Node.trace w ++ suffix
    ∧ Forall (λ e, is_enabled_side e = false) suffix.
Proof.
  induction infos as [|info infos IH]; intros w E.
  - exists []. simpl. by rewrite app_nil_r.
  - destruct (disabled_pass_trace self info w E) as (s1 & H1 & F1 & _).
    rewrite fmap_cons. cbn [Node.live]. unfold bind.
    destruct (run_iteration self info w) as [[] w1|e w1|w1]; simpl in *.
    + destruct (IH w1 E) as (s2 & H2 & F2).
      exists (s1 ++ s2). rewrite H2, H1, app_assoc. split; [done|].
      by apply Forall_app.
    + by exists s1.
    + by exists s1.
Qed.

Lemma toggle_involutive self : Node._toggle_enable (Node._toggle_enable self) = self.
Proof. destruct self. unfold Node._toggle_enable. simpl. by rewrite negb_involutive. Qed.

(** [X9]. While a node is disabled, a pass whose inputs are ready is
    decided by [bypass] applied to these inputs: the pass raises what
    [bypass] raises, ends when its result is [None] or falsy, and otherwise
    dispatches the message as [bypass] returned it, with no route record.
    No pass, however many are made, calls [process] or attaches a route
    record. *)
Theorem disabled_node_only_bypasses self :
  Node._enabled self = false →
  (∀ info w input_msgs s',
     Node._get_input_from_buffer self (Node.bufs w) = Ret (Node.Ready input_msgs) s' →
     run_iteration self info w
     = match Node.bypass (Node.class self) input_msgs with
       | inl e =>
           Raise e (Node.World s' (Node.trace w ++ [Node.CallBypass input_msgs]))
       | inr None =>
           Ret tt (Node.World s' (Node.trace w ++ [Node.CallBypass input_msgs]))
       | inr (Some m) =>
           if msg_truthy m then
             Node.dispatch self (Node.output_buffers self) m
               (Node.World s' (Node.trace w ++ [Node.CallBypass input_msgs]))
           else Ret tt (Node.World s' (Node.trace w ++ [Node.CallBypass input_msgs]))
       end)
  ∧ (∀ info w input_msgs s',
       Node._get_input_from_buffer self (Node.bufs w) = Ret (Node.Ready input_msgs) s' →
       Node.trace (final_store (run_iteration self info w))
       = Node.trace w ++ [Node.CallBypass input_msgs])
  ∧ (∀ infos w,
       ∃ suffix,
         Node.trace (final_store (live self (Node.Pass <$> infos) w)) = Node.trace w ++ suffix
         ∧ Forall (λ e, is_enabled_side e = false) suffix).
Proof.
  intros E. split; [|split].
  - intros info w input_msgs s' Hg.
    unfold Node.run_iteration, bind, Node.lift. rewrite Hg. simpl.
    rewrite E. simpl. unfold Node.call.
    destruct (Node.bypass (Node.class self) input_msgs) as [e|[m|]]; simpl; [done| |done].
    by destruct (msg_truthy m).
  - intros info w input_msgs s' Hg.
    destruct (disabled_pass_trace self info w E) as (suffix & Ht & _ & Hs).
    by rewrite Ht, (Hs _ _ Hg).
  - intros infos w. by apply disabled_passes_trace.
Qed.

(** The toggle handler is its own inverse: two firings in a row give the
    node back, so the loop goes on as if none had happened. *)
Lemma toggle_twice_restores self ticks w :
  Node._toggle_enable (Node._toggle_enable self) = self
  ∧ live self (Node.ToggleFired :: Node.ToggleFired :: ticks) w = live self ticks w.
Proof.
  split; [apply toggle_involutive|]. cbn [Node.live]. by rewrite toggle_involutive.
Qed.

(** What [set_runner] keeps and what it sets. *)
Lemma set_runner_fields self r self' :
  Node.set_runner self r = inr self' →
  Node.runner self' = Some r
  ∧ Node._enabled self' = Node._enabled self
  ∧ Node.class self' = Node.class self
  ∧ Node.enable_key self' = Node.enable_key self.
Proof.
  unfold Node.set_runner, Node.register_hotkey_handler, Node.runner.
  destruct (Node._runner self); [done|]. cbn beta iota zeta.
  cbn [Node.enable_key Node._runner].
  destruct (Node.enable_key self) as [k|].
  - by destruct (Node.key_truthy (Some k)); intros [= <-].
  - by intros [= <-].
Qed.

(** [X10]. [set_runner] binds a node once.  The node it returns has the
    runner, the flag, the class, the key and the bindings it had, and one
    more listener, the one of the toggle key, exactly when [enable_key] is
    truthy; every later [set_runner] on it raises [RuntimeError]. *)
Theorem set_runner_binds_once self r self' :
  Node.set_runner self r = inr self' →
  Node.runner self' = Some r
  ∧ Node._enabled self' = Node._enabled self
  ∧ Node.class self' = Node.class self
  ∧ Node.enable_key self' = Node.enable_key self
  ∧ Node.input_buffers self' = Node.input_buffers self
  ∧ Node.output_buffers self' = Node.output_buffers self
  ∧ Node._event2listener self'
    = Node._event2listener self
      ++ match Node.enable_key self with
         | Some k => if Node.key_truthy (Some k) then [Node.HotkeyListener k] else []
         | None => []
         end
  ∧ ∀ r', ∃ e, Node.set_runner self' r' = inl e ∧ exn_cls e = RuntimeError.
Proof.
  unfold Node.set_runner, Node.register_hotkey_handler, Node.runner.
  destruct (Node._runner self); [done|]. cbn beta iota zeta.
  cbn [Node.enable_key Node._runner].
  destruct (Node.enable_key self) as [k|].
  - destruct (Node.key_truthy (Some k)); intros [= <-]; simpl;
      rewrite ?app_nil_r; repeat split; intros; by eexists.
  - intros [= <-]; simpl; rewrite ?app_nil_r; repeat split; intros; by eexists.
Qed.

(** What [lifecycle] keeps: a truthy key comes with an overridden [bypass],
    and a disabled node has a truthy key. *)
Lemma lifecycle_invariant self :
  lifecycle self →
  (Node.key_truthy (Node.enable_key self) = true →
   Node.is_bypass_overridden (Node.class self) = true)
  ∧ (Node._enabled self = false → Node.key_truthy (Node.enable_key self) = true).
Proof.
  induction 1 as [c name key fps ival self Hinit
                 | | |self r self' _ IH Hset
                 |self n self' _ IH Hreg|self k self' _ IH Hreg
                 |self _ IH Hr Hk]; simpl; try done.
  - unfold Node.__init__ in Hinit. simpl in Hinit.
    destruct (Node.key_truthy key) eqn:Ek.
    + destruct (Node.is_bypass_overridden c) eqn:Eb; simpl in Hinit; [|done].
      injection Hinit as <-. simpl. by rewrite Ek.
    + injection Hinit as <-. simpl. by rewrite Ek.
  - destruct (set_runner_fields self r self' Hset) as (_ & -> & -> & ->). done.
  - unfold Node.register_event_handler in Hreg.
    destruct (Node.runner self); [|done]. by injection Hreg as <-.
  - unfold Node.register_hotkey_handler in Hreg.
    destruct (Node.runner self); [|done]. by injection Hreg as <-.
  - destruct IH as [IH1 _]. done.
Qed.

(** [X12]. On every node a program can reach, the check made by [__init__]
    holds for good: a truthy [enable_key] comes with an overridden
    [bypass], and a disabled node runs the override of its class, never
    [Node.bypass], the method that raises [NotImplementedError]. *)
Theorem reachable_nodes_bypass_by_override self :
  lifecycle self →
  (Node.key_truthy (Node.enable_key self) = true →
   ∃ f, Node.bypass_override (Node.class self) = Some f)
  ∧ (Node._enabled self = false →
     ∃ f, Node.bypass_override (Node.class self) = Some f ∧
          Node.bypass (Node.class self) = f).
Proof.
  intros Hl. destruct (lifecycle_invariant self Hl) as [H1 H2].
  assert (Hov : Node.key_truthy (Node.enable_key self) = true →
                ∃ f, Node.bypass_override (Node.class self) = Some f).
  { intros Hk. specialize (H1 Hk). unfold Node.is_bypass_overridden in H1.
    apply bool_decide_eq_true in H1. by destruct H1 as [f ?]; exists f. }
  split; [done|].
  intros Hd. destruct (Hov (H2 Hd)) as [f Hf]. exists f. split; [done|].
  unfold Node.bypass. by rewrite Hf.
Qed.

(** [X13]. [register_output_buffer] with one name is the call with the
    one-element list, and two calls with lists are one call with the lists
    joined: the output bindings are in the order of registration. *)
Theorem register_output_buffer_composes self (s : string) (l1 l2 : list string) :
  Node.register_output_buffer self (inl s) = Node.register_output_buffer self (inr [s])
  ∧ Node.register_output_buffer (Node.register_output_buffer self (inr l1)) (inr l2)
    = Node.register_output_buffer self (inr (l1 ++ l2))
  ∧ Node.out_buffer_name <$> Node.output_buffers (Node.register_output_buffer self (inr l1))
    = (Node.out_buffer_name <$> Node.output_buffers self) ++ l1.
Proof.
  split; [done|]. split.
  - unfold Node.register_output_buffer. simpl. by rewrite fmap_app, app_assoc.
  - unfold Node.register_output_buffer. simpl. rewrite fmap_app. f_equal.
    rewrite <- list_fmap_compose. by rewrite list_fmap_id.
Qed.

(** The dispatch loop over two lists of bindings is the loop over the first
    followed by the loop over the second. *)
Lemma dispatch_app self pre post (m : Msg) : ∀ w,
  dispatch self (pre ++ post) m w
  = bind (dispatch self pre m) (λ _, dispatch self post m) w.
Proof.
  induction pre as [|o pre IH]; intros w; simpl; [done|].
  destruct (Node.runner self) as [r|]; [|done].
  unfold bind, Node.lift.
  destruct (bm_put _ _ _ _ _ _) as [[] s|e s|s]; [|done..].
  by rewrite IH.
Qed.
End NodeLifecycle.

(** ** Further facts about node.py on the BufferManager of buffer.py *)

Section GatherOnBufferManager.
Context {Msg Info : Type}.
Implicit Types (self : Node.t Msg (gmap string BufferManager.loc)).
Implicit Types (bm : gmap string BufferManager.loc) (h : BufferManager.heap Msg).
Implicit Types (bs : list Node.InputBinding).

Lemma get_not_caught bm name h e s :
  BufferManager.get bm name true None h = Raise e s →
  bool_decide (exn_cls e ∈ [IndexError; KeyError]) = false.
Proof.
  intros H.
  pose proof (get_raised_class bm name true None h) as Hc.
  rewrite H in Hc. simpl in Hc.
  apply bool_decide_eq_false. intros Hin.
  apply elem_of_cons in Hin as [Hin|Hin]; [rewrite Hin in Hc; set_solver|].
  apply elem_of_cons in Hin as [Hin|Hin]; [rewrite Hin in Hc; set_solver|].
  by apply elem_of_nil in Hin.
Qed.

Lemma fetch_inputs_all_messages bm bs : ∀ res h res' h',
  Node.fetch_inputs bm bs res h = Ret (Node.Ready res') h' →
  (∀ b, b ∈ bs → ∃ m, res' !! Node.input_name b = Some (Some m))
  ∧ (∀ k m, res !! k = Some (Some m) → ∃ m', res' !! k = Some (Some m')).
Proof.
  induction bs as [|b bs IH]; intros res h res' h' H.
  - simpl in H. injection H as <- _. split; [by intros b Hb; apply elem_of_nil in Hb|eauto].
  - cbn [Node.fetch_inputs bm_get BufferManager_registry] in H.
    destruct (BufferManager.get bm (Node.buffer_name b) true None h)
      as [d h1|e h1|h1] eqn:Hget; [| |done].
    + destruct (IH _ _ _ _ H) as [IH1 IH2]. split.
      * intros b' Hb'. apply elem_of_cons in Hb' as [->|Hb']; [|by apply IH1].
        apply (IH2 _ d). by rewrite lookup_insert_eq.
      * intros k m Hk. destruct (decide (Node.input_name b = k)) as [<-|Hne].
        -- apply (IH2 _ d). by rewrite lookup_insert_eq.
        -- apply (IH2 _ m). by rewrite lookup_insert_ne.
    + by rewrite (get_not_caught _ _ _ _ _ Hget) in H.
Qed.

(** [X14]. With the BufferManager, when [_get_input_from_buffer] returns
    [(True, result)], every logical input name of the bindings is bound to
    a message in [result]: no input of a ready pass is [None], essential
    or not. *)
Theorem ready_inputs_are_all_messages self h h' res :
  Node._get_input_from_buffer self h = Ret (Node.Ready res) h' →
  ∀ b, b ∈ Node.input_buffers self → ∃ m, res !! Node.input_name b = Some (Some m).
Proof.
  unfold Node._get_input_from_buffer.
  destruct (Node.runner self) as [r|]; [|done].
  unfold bind.
  destruct (Node.check_essential _ _ h) as [[|] h1|e h1|h1]; try done.
  intros H. by destruct (fetch_inputs_all_messages _ _ _ _ _ _ H).
Qed.

Lemma shrunk_refl h : shrunk h h.
Proof. split; [done|]. intros l q' Hl. by exists q'. Qed.

Lemma shrunk_trans h1 h2 h3 : shrunk h1 h2 → shrunk h2 h3 → shrunk h1 h3.
Proof.
  intros [L1 H1] [L2 H2]. split; [congruence|].
  intros l q3 Hl. destruct (H2 _ _ Hl) as (q2 & Hl2 & Hm2 & Hs2).
  destruct (H1 _ _ Hl2) as (q1 & Hl1 & Hm1 & Hs1).
  exists q1. split; [done|]. split; [congruence|]. by etrans.
Qed.

Lemma get_shrinks bm name block timeout h :
  shrunk h (final_store (BufferManager.get bm name block timeout h)).
Proof.
  destruct (get_final_store bm name block timeout h)
    as [->|(l & q & x & rest & _ & Hl & Hi & ->)]; [apply shrunk_refl|].
  split; [by rewrite length_insert|].
  intros l' q' Hl'. destruct (decide (l = l')) as [<-|Hne].
  - rewrite list_lookup_insert_eq in Hl' by (by eapply lookup_lt_Some).
    injection Hl' as <-. exists q. split; [done|]. split; [done|].
    simpl. rewrite Hi. by apply suffix_cons_r.
  - rewrite list_lookup_insert_ne in Hl' by done. by exists q'.
Qed.

Lemma is_empty_outcome bm name h :
  (∃ b, BufferManager.is_empty bm name h = Ret b h)
  ∨ (∃ e, BufferManager.is_empty bm name h = Raise e h).
Proof.
  unfold BufferManager.is_empty, BufferManager.check_buffer_registered.
  destruct (bm !! name) as [l|] eqn:Hn.
  - rewrite (contains_Some _ _ _ Hn). simpl.
    unfold bind, BufferManager.lookup_buffer. rewrite Hn. simpl.
    unfold BufferManager.on_queue.
    destruct (h !! l) as [q|] eqn:Hl; [|right; by eexists].
    left. rewrite list_insert_id by done. by eexists.
  - rewrite (contains_None _ _ Hn). right. by eexists.
Qed.

(** The readiness loop only looks: however it ends, the heap is as before. *)
Lemma check_essential_final_store bm bs h :
  final_store (Node.check_essential bm bs h) = h.
Proof.
  induction bs as [|b bs IH]; simpl; [done|].
  destruct (Node.essential b); [|done].
  unfold bind. cbn [bm_is_empty BufferManager_registry].
  destruct (is_empty_outcome bm (Node.buffer_name b) h) as [[[|] ->]|[e ->]]; done.
Qed.

Lemma fetch_inputs_shrinks bm bs : ∀ res h,
  shrunk h (final_store (Node.fetch_inputs bm bs res h)).
Proof.
  induction bs as [|b bs IH]; intros res h; [apply shrunk_refl|].
  cbn [Node.fetch_inputs bm_get BufferManager_registry].
  pose proof (get_shrinks bm (Node.buffer_name b) true None h) as Hs.
  destruct (BufferManager.get bm (Node.buffer_name b) true None h)
    as [d h1|e h1|h1] eqn:Hget; simpl in Hs; [| |done].
  - eapply shrunk_trans; [exact Hs|apply IH].
  - by rewrite (get_not_caught _ _ _ _ _ Hget).
Qed.

(** [X15]. However [_get_input_from_buffer] ends (ready, not ready, raising
    or waiting), it has only taken items from the front of queues: the heap
    has the same queues with the same capacities, and each queue holds a
    suffix of the items it held.  Gathering never puts and never
    reorders. *)
Theorem gathering_only_takes_from_the_front self h :
  shrunk h (final_store (Node._get_input_from_buffer self h)).
Proof.
  unfold Node._get_input_from_buffer.
  destruct (Node.runner self) as [r|]; [|apply shrunk_refl].
  unfold bind.
  pose proof (check_essential_final_store (Node.buffer_manager r) (Node.input_buffers self) h)
    as Hc.
  destruct (Node.check_essential _ _ h) as [[|] h1|e h1|h1]; simpl in Hc; subst h1;
    try apply shrunk_refl.
  apply fetch_inputs_shrinks.
Qed.

Lemma is_empty_returns bm name h b h' :
  BufferManager.is_empty bm name h = Ret b h' →
  h' = h ∧ ∃ l q, bm !! name = Some l ∧ h !! l = Some q ∧ b = Queue.empty q.
Proof.
  unfold BufferManager.is_empty, BufferManager.check_buffer_registered.
  destruct (bm !! name) as [l|] eqn:Hn.
  - rewrite (contains_Some _ _ _ Hn). simpl.
    unfold bind, BufferManager.lookup_buffer. rewrite Hn. simpl.
    unfold BufferManager.on_queue.
    destruct (h !! l) as [q|] eqn:Hl; [|done].
    rewrite list_insert_id by done. intros [= <- <-]. split; [done|]. by exists l, q.
  - by rewrite (contains_None _ _ Hn).
Qed.

(** [X16]. The readiness loop never reports ready over an empty essential
    buffer: whenever it answers [True], it has changed nothing, and the
    buffer of every essential binding is registered and holds an item. *)
Theorem readiness_is_sound bm h bs h' :
  Node.check_essential bm bs h = Ret true h' →
  h' = h
  ∧ Forall (λ b, Node.essential b = true →
                 ∃ x rest, contents bm h (Node.buffer_name b) = Some (x :: rest)) bs.
Proof.
  induction bs as [|b bs IH]; simpl.
  - by intros [= <-].
  - destruct (Node.essential b) eqn:Hess.
    + unfold bind. cbn [bm_is_empty BufferManager_registry].
      destruct (BufferManager.is_empty bm (Node.buffer_name b) h) as [e h1|e h1|h1] eqn:He;
        [|done..].
      destruct (is_empty_returns _ _ _ _ _ He) as (-> & l & q & Hl & Hq & ->).
      destruct (Queue.empty q) eqn:Hempty; [done|].
      intros H. destruct (IH H) as [-> Hall]. split; [done|].
      apply Forall_cons. split; [|done]. intros _.
      unfold Queue.empty in Hempty. apply bool_decide_eq_false in Hempty.
      destruct (Queue.items q) as [|x rest] eqn:Hi; [done|].
      exists x, rest. unfold contents. rewrite Hl. simpl. rewrite Hq. simpl. by rewrite Hi.
    + intros H. destruct (IH H) as [-> Hall]. split; [done|].
      apply Forall_cons. split; [|done]. intros ?. congruence.
Qed.
End GatherOnBufferManager.

Section DispatchOnBufferManager.
Context {Msg Info : Type}.
Implicit Types (self : Node.t Msg (gmap string BufferManager.loc)).
Implicit Types (bm : gmap string BufferManager.loc) (h : BufferManager.heap Msg).
Implicit Types (outs : list Node.OutputBinding).

Local Abbreviation dispatch := (Node.dispatch (Info := Info)).


(** [X18]. A full output buffer stalls the node: when the dispatch loop has
    served the bindings before one whose buffer is registered, bounded and
    full, it waits there, with the message already in the earlier buffers
    and in none of the later ones. *)
Theorem dispatch_waits_at_a_full_output self r (m : Msg) pre o post h tr h1 l q :
  Node.runner self = Some r →
  dispatch self pre m (Node.World h tr) = Ret tt (Node.World h1 tr) →
  Node.buffer_manager r !! Node.out_buffer_name o = Some l →
  h1 !! l = Some q →
  0 < Queue.maxsize q → Queue.maxsize q <= Z.of_nat (length (Queue.items q)) →
  dispatch self (pre ++ o :: post) m (Node.World h tr) = Block (Node.World h1 tr).
Proof.
  intros Hr Hpre Hn Hq Hpos Hfull.
  rewrite dispatch_app. unfold bind at 1. rewrite Hpre.
  cbn [Node.dispatch]. rewrite Hr. unfold bind, Node.lift.
  cbn [bm_put BufferManager_registry Node.bufs Node.trace].
  unfold BufferManager.put. rewrite (checked_registered _ _ _ _ _ _ _ Hn Hq).
  unfold Queue.put. rewrite (proj2 (full_spec q) (conj Hpos Hfull)).
  by rewrite list_insert_id.
Qed.
End DispatchOnBufferManager.

Section PassOnBufferManager.
Context {Msg Info : Type}.
Context (msg_truthy : Msg → bool).
Context (update_route_info : Msg → Node.t Msg (gmap string BufferManager.loc) → Info → Msg).
Implicit Types (self : Node.t Msg (gmap string BufferManager.loc)).
Implicit Types (bm : gmap string BufferManager.loc) (h : BufferManager.heap Msg).
Implicit Types (bs : list Node.InputBinding).

Local Abbreviation run_iteration := (Node.run_iteration msg_truthy update_route_info).
Local Abbreviation run := (Node.run msg_truthy update_route_info).
Local Abbreviation live := (Node.live msg_truthy update_route_info).

Lemma contents_cons bm h name x rest :
  contents bm h name = Some (x :: rest) →
  ∃ l q, bm !! name = Some l ∧ h !! l = Some q ∧ Queue.items q = x :: rest.
Proof.
  unfold contents. destruct (bm !! name) as [l|]; simpl; [|done].
  destruct (h !! l) as [q|] eqn:Hl; simpl; [|done].
  intros [= Hq]. by exists l, q.
Qed.

(** The fetch loop on bindings with distinct buffers and distinct input
    names, each buffer holding an item. *)
Lemma fetch_inputs_takes_heads bm bs : ∀ res h,
  no_alias bm →
  NoDup (Node.buffer_name <$> bs) → NoDup (Node.input_name <$> bs) →
  (∀ b, b ∈ bs → ∃ x rest, contents bm h (Node.buffer_name b) = Some (x :: rest)) →
  ∃ res' h',
    Node.fetch_inputs bm bs res h = Ret (Node.Ready res') h'
    ∧ (∀ b x rest, b ∈ bs → contents bm h (Node.buffer_name b) = Some (x :: rest) →
                   res' !! Node.input_name b = Some (Some x)
                   ∧ contents bm h' (Node.buffer_name b) = Some rest)
    ∧ (∀ name, name ∉ Node.buffer_name <$> bs → contents bm h' name = contents bm h name)
    ∧ (∀ k, k ∉ Node.input_name <$> bs → res' !! k = res !! k).
Proof.
  induction bs as [|b bs IH]; intros res h Hna Hnd Hni Hne.
  - exists res, h. split; [done|]. split; [|done].
    intros b x rest Hb. by apply elem_of_nil in Hb.
  - rewrite fmap_cons in Hnd, Hni.
    apply NoDup_cons in Hnd as [Hb_fresh Hnd]. apply NoDup_cons in Hni as [Hi_fresh Hni].
    destruct (Hne b) as (x & rest & Hc); [by left|].
    destruct (contents_cons _ _ _ _ _ Hc) as (l & q & Hl & Hq & Hi).
    pose proof (lookup_lt_Some _ _ _ Hq) as Hlt.
    set (h1 := <[l := Queue.mk (Queue.maxsize q) rest]> h).
    assert (Hother : ∀ name, name ≠ Node.buffer_name b →
                             contents bm h1 name = contents bm h name).
    { intros name Hn. by eapply contents_insert_other. }
    assert (Hself : contents bm h1 (Node.buffer_name b) = Some rest).
    { unfold contents, h1. rewrite Hl. simpl. by rewrite list_lookup_insert_eq. }
    assert (Hin : ∀ b', b' ∈ bs → Node.buffer_name b' ≠ Node.buffer_name b).
    { intros b' Hb' Heq. apply Hb_fresh. rewrite <- Heq.
      apply list_elem_of_fmap. by exists b'. }
    destruct (IH (<[Node.input_name b := Some x]> res) h1 Hna Hnd Hni)
      as (res' & h' & Hf & Hheads & Hframe & Hres).
    { intros b' Hb'. rewrite (Hother _ (Hin _ Hb')). apply Hne. by right. }
    exists res', h'. split; [|split; [|split]].
    + cbn [Node.fetch_inputs bm_get BufferManager_registry].
      by rewrite (get_registered _ _ _ _ _ _ _ Hl Hq Hi).
    + intros b' x' rest' Hb' Hc'. apply elem_of_cons in Hb' as [->|Hb'].
      * rewrite Hc in Hc'. injection Hc' as <- <-. split.
        -- rewrite (Hres _ Hi_fresh). by rewrite lookup_insert_eq.
        -- by rewrite (Hframe _ Hb_fresh).
      * apply Hheads; [done|]. by rewrite (Hother _ (Hin _ Hb')).
    + intros name Hn. rewrite fmap_cons in Hn. apply not_elem_of_cons in Hn as [Hn1 Hn2].
      by rewrite (Hframe _ Hn2), (Hother _ Hn1).
    + intros k Hk. rewrite fmap_cons in Hk. apply not_elem_of_cons in Hk as [Hk1 Hk2].
      rewrite (Hres _ Hk2). by rewrite lookup_insert_ne.
Qed.

(** [X19]. A bound node whose input bindings name distinct buffers and
    distinct inputs, in a manager without aliases, every one of these
    buffers holding an item: once the readiness loop has passed,
    [_get_input_from_buffer] returns [(True, result)], [result] binds each
    input name to the oldest item of its buffer, each of these buffers has
    lost exactly that item, and the other buffers are as they were. *)
Theorem ready_gather_takes_the_oldest_of_each_buffer self r h :
  Node.runner self = Some r →
  no_alias (Node.buffer_manager r) →
  NoDup (Node.buffer_name <$> Node.input_buffers self) →
  NoDup (Node.input_name <$> Node.input_buffers self) →
  Node.check_essential (Node.buffer_manager r) (Node.input_buffers self) h = Ret true h →
  (∀ b, b ∈ Node.input_buffers self →
        ∃ x rest, contents (Node.buffer_manager r) h (Node.buffer_name b) = Some (x :: rest)) →
  ∃ res h',
    Node._get_input_from_buffer self h = Ret (Node.Ready res) h'
    ∧ (∀ b x rest,
         b ∈ Node.input_buffers self →
         contents (Node.buffer_manager r) h (Node.buffer_name b) = Some (x :: rest) →
         res !! Node.input_name b = Some (Some x)
         ∧ contents (Node.buffer_manager r) h' (Node.buffer_name b) = Some rest)
    ∧ (∀ name, name ∉ Node.buffer_name <$> Node.input_buffers self →
               contents (Node.buffer_manager r) h' name
               = contents (Node.buffer_manager r) h name).
Proof.
  intros Hr Hna Hnd Hni Hready Hne.
  destruct (fetch_inputs_takes_heads (Node.buffer_manager r) (Node.input_buffers self)
              (Node.default_inputs (Node.input_buffers self)) h Hna Hnd Hni Hne)
    as (res & h' & Hf & Hheads & Hframe & _).
  exists res, h'. split; [|done].
  unfold Node._get_input_from_buffer. rewrite Hr. unfold bind. by rewrite Hready.
Qed.

(** [X20]. What a ready pass dispatches.  Disabled: the message [bypass]
    returned, as it is, when it is truthy.  Enabled: the message [process]
    returned after [update_route_info], when the message is truthy before
    and after the update; the route record is attached once, before the
    first [put]. *)
Theorem truthy_output_is_dispatched self info (w : Node.world Msg Info (BufferManager.heap Msg))
        input_msgs s' m :
  Node._get_input_from_buffer self (Node.bufs w) = Ret (Node.Ready input_msgs) s' →
  chosen_transform self input_msgs = inr (Some m) →
  msg_truthy m = true →
  (Node._enabled self = false →
   run_iteration self info w
   = Node.dispatch self (Node.output_buffers self) m
       (Node.World s' (Node.trace w ++ [Node.CallBypass input_msgs])))
  ∧ (Node._enabled self = true →
     msg_truthy (update_route_info m self info) = true →
     run_iteration self info w
     = Node.dispatch self (Node.output_buffers self) (update_route_info m self info)
         (Node.World s' (Node.trace w ++ [Node.CallProcess input_msgs;
                                           Node.UpdateRouteInfo m info]))).
Proof.
  intros Hg Hout Hm. unfold chosen_transform in Hout.
  split; intros E; rewrite E in Hout.
  - unfold Node.run_iteration, bind, Node.lift. rewrite Hg. simpl.
    rewrite E. simpl. unfold Node.call. rewrite Hout. simpl. by rewrite Hm.
  - intros Hm'. unfold Node.run_iteration, bind, Node.lift. rewrite Hg. simpl.
    rewrite E. simpl. unfold Node.call. rewrite Hout. simpl. rewrite Hm. simpl.
    rewrite Hm'. by rewrite <- app_assoc.
Qed.

(** [X21]. The loop catches nothing: when the transform of a ready pass
    raises, the pass raises the same exception with the inputs already
    taken from the buffers, and [run] stops there, whatever the number of
    passes that were to follow. *)
Theorem transform_error_ends_the_loop self info infos
        (w : Node.world Msg Info (BufferManager.heap Msg)) input_msgs s' e :
  Node._get_input_from_buffer self (Node.bufs w) = Ret (Node.Ready input_msgs) s' →
  chosen_transform self input_msgs = inl e →
  run_iteration self info w
  = Raise e (Node.World s' (Node.trace w ++ [chosen_call self input_msgs]))
  ∧ run self (info :: infos) w
    = Raise e (Node.World s' (Node.trace w ++ [chosen_call self input_msgs])).
Proof.
  intros Hg Hout.
  assert (H : run_iteration self info w
              = Raise e (Node.World s' (Node.trace w ++ [chosen_call self input_msgs]))).
  { unfold Node.run_iteration, bind, Node.lift. rewrite Hg. simpl.
    unfold chosen_transform, chosen_call in *.
    destruct (Node._enabled self); simpl; unfold Node.call; by rewrite Hout. }
  split; [done|]. simpl. unfold bind. by rewrite H.
Qed.

Lemma check_essential_app bm pre rest h :
  Node.check_essential bm pre h = Ret true h →
  Node.check_essential bm (pre ++ rest) h = Node.check_essential bm rest h.
Proof.
  induction pre as [|b pre IH]; [done|]. simpl.
  destruct (Node.essential b); [|done].
  unfold bind. cbn [bm_is_empty BufferManager_registry].
  destruct (is_empty_outcome bm (Node.buffer_name b) h) as [[[|] ->]|[e ->]]; done.
Qed.

(** [X22]. A binding to a buffer that is not registered makes the pass
    raise the [ValueError] of the registry, essential or not: for an
    essential binding it comes from [is_empty] in the readiness loop, with
    nothing taken; for an inessential one it comes from [get] in the fetch
    loop, which the handler for [IndexError] and [KeyError] does not
    catch. *)
Theorem unregistered_input_buffer_raises self r pre b post h :
  Node.runner self = Some r →
  Node.input_buffers self = pre ++ b :: post →
  Node.buffer_manager r !! Node.buffer_name b = None →
  (Node.essential b = true →
   Node.check_essential (Node.buffer_manager r) pre h = Ret true h →
   Node._get_input_from_buffer self h
   = Raise (Exn ValueError (BufferManager.not_registered_msg "is_empty" (Node.buffer_name b))) h)
  ∧ (Node.essential b = false →
     ∀ res1 h1,
       Node.check_essential (Node.buffer_manager r) (Node.input_buffers self) h = Ret true h →
       Node.fetch_inputs (Node.buffer_manager r) pre
         (Node.default_inputs (Node.input_buffers self)) h = Ret (Node.Ready res1) h1 →
       Node._get_input_from_buffer self h
       = Raise (Exn ValueError (BufferManager.not_registered_msg "get" (Node.buffer_name b))) h1).
Proof.
  intros Hr Hbs Hn. unfold Node._get_input_from_buffer. rewrite Hr. unfold bind. split.
  - intros Hess Hpre. rewrite Hbs, (check_essential_app _ _ _ _ Hpre). simpl.
    rewrite Hess. unfold bind. cbn [bm_is_empty BufferManager_registry].
    unfold BufferManager.is_empty. by rewrite checked_unregistered.
  - intros Hess res1 h1 Hcheck Hpre. rewrite Hcheck. rewrite Hbs at 1.
    rewrite (fetch_inputs_app _ _ _ _ _ _ _ Hpre).
    cbn [Node.fetch_inputs bm_get BufferManager_registry].
    unfold BufferManager.get. by rewrite checked_unregistered.
Qed.

(** [X23]. Toggling end to end: after one firing of the toggle an enabled
    node makes passes that never call [process] nor attach a route record;
    after a second firing its passes never call [bypass]. *)
Theorem toggling_switches_the_branch self infos
        (w : Node.world Msg Info (BufferManager.heap Msg)) :
  Node._enabled self = true →
  (∃ suffix,
     Node.trace (final_store (live self (Node.ToggleFired :: (Node.Pass <$> infos)) w))
     = Node.trace w ++ suffix
     ∧ Forall (λ e, is_enabled_side e = false) suffix)
  ∧ (∃ suffix,
       Node.trace (final_store
         (live self (Node.ToggleFired :: Node.ToggleFired :: (Node.Pass <$> infos)) w))
       = Node.trace w ++ suffix
       ∧ Forall (λ e, is_bypass_call e = false) suffix).
Proof.
  intros E. split.
  - cbn [Node.live].
    apply (disabled_passes_trace msg_truthy update_route_info (Node._toggle_enable self)).
    simpl. by rewrite E.
  - cbn [Node.live]. rewrite toggle_involutive.
    by apply enabled_passes_trace.
Qed.
End PassOnBufferManager.

(** ** The further statements at concrete nodes *)

Lemma no_alias_empty : no_alias (∅ : gmap string BufferManager.loc).
Proof. intros n1 n2 l H. by rewrite lookup_empty in H. Qed.

Lemma no_alias_insert (self : gmap string BufferManager.loc) name l :
  no_alias self → (∀ n, self !! n ≠ Some l) →
  no_alias (<[name := l]> self).
Proof.
  intros Hna Hfresh n1 n2 l'.
  destruct (decide (name = n1)) as [<-|H1], (decide (name = n2)) as [<-|H2];
    rewrite ?lookup_insert_eq, ?lookup_insert_ne by done; try done.
  - intros [= <-] H. by apply Hfresh in H.
  - intros H [= <-]. by apply Hfresh in H.
  - apply Hna.
Qed.

Lemma onlyX_no_alias : no_alias Demo.onlyX.
Proof.
  unfold Demo.onlyX. rewrite <- insert_empty.
  apply no_alias_insert; [apply no_alias_empty|]. intros n. by rewrite lookup_empty.
Qed.

Lemma ab_no_alias : no_alias Demo.ab.
Proof.
  unfold Demo.ab. apply no_alias_insert.
  - rewrite <- insert_empty.
    apply no_alias_insert; [apply no_alias_empty|]. intros n. by rewrite lookup_empty.
  - intros n H. apply lookup_singleton_Some in H as [_ H]. discriminate.
Qed.

Lemma onlyX_wf : wf (A := Z) Demo.onlyX [Queue.mk 0 [5]].
Proof.
  intros n l H. unfold Demo.onlyX in H.
  apply lookup_singleton_Some in H as [_ <-]. simpl. lia.
Qed.

Lemma register_buffer_adds_an_empty_buffer_witness :
  ∃ self' h',
    BufferManager.register_buffer (A := Z) Demo.onlyX "Y" 2 [Queue.mk 0 [5]] = Ret self' h'
    ∧ contents self' h' "Y" = Some []
    ∧ contents self' h' "X" = contents Demo.onlyX [Queue.mk 0 [5]] "X".
Proof.
  destruct (proj1 (register_buffer_adds_an_empty_buffer (A := Z) Demo.onlyX
                     [Queue.mk 0 [5]] "Y" 2 onlyX_wf onlyX_no_alias eq_refl))
    as (self' & h' & H1 & _ & _ & H2 & H3); [unfold Queue.SEM_VALUE_MAX; lia|].
  exists self', h'. split; [exact H1|]. split; [exact H2|].
  by apply (H3 "X").
Defined.

Lemma other_buffers_are_untouched_witness :
  contents Demo.ab
    (final_store (BufferManager.put Demo.ab "a" 9 true None [Queue.mk 0 [1]; Queue.mk 0 [2]]))
    "b"
  = contents Demo.ab [Queue.mk 0 [1]; Queue.mk 0 [2]] "b".
Proof.
  refine (proj1 (other_buffers_are_untouched (A := Z) Demo.ab [Queue.mk 0 [1]; Queue.mk 0 [2]]
                   "a" "b" 9 true None ab_no_alias _)).
  discriminate.
Defined.



Lemma get_info_counts_items_witness :
  ∃ info h' info',
    BufferManager.get_info (A := Z) Demo.onlyX [Queue.mk 0 [5]] = Ret info [Queue.mk 0 [5]]
    ∧ info !! "X" = Some 1%nat
    ∧ BufferManager.put Demo.onlyX "X" 7 true None [Queue.mk 0 [5]] = Ret tt h'
    ∧ BufferManager.get_info Demo.onlyX h' = Ret info' h'
    ∧ info' !! "X" = Some 2%nat.
Proof.
  apply (get_info_counts_items (A := Z) Demo.onlyX "X" 0%nat [Queue.mk 0 [5]]
           (Queue.mk 0 [5]) 7 true None); reflexivity.
Defined.

Lemma wired_gathers :
  Node._get_input_from_buffer Demo.wired [Queue.mk 0 [5]; Queue.mk 0 []]
  = Ret (Node.Ready {["x" := Some 5]}) [Queue.mk 0 []; Queue.mk 0 []].
Proof. vm_compute. reflexivity. Qed.

Lemma ready_inputs_have_the_registered_names_witness :
  dom ({["x" := Some 5]} : gmap string (option Z))
  = list_to_set (Node.input_name <$> Node.input_buffers Demo.wired).
Proof.
  exact (ready_inputs_have_the_registered_names Demo.wired
           [Queue.mk 0 [5]; Queue.mk 0 []] [Queue.mk 0 []; Queue.mk 0 []]
           {["x" := Some 5]} wired_gathers).
Defined.

Lemma wired_disabled_gathers :
  Node._get_input_from_buffer Demo.wired_disabled [Queue.mk 0 [5]; Queue.mk 0 []]
  = Ret (Node.Ready {["x" := Some 5]}) [Queue.mk 0 []; Queue.mk 0 []].
Proof. vm_compute. reflexivity. Qed.

Lemma disabled_node_only_bypasses_witness :
  Node.run_iteration Demo.msg_truthy Demo.update_route_info Demo.wired_disabled tt
    (Node.World [Queue.mk 0 [5]; Queue.mk 0 []] [])
  = Ret tt (Node.World [Queue.mk 0 []; Queue.mk 0 []] [Node.CallBypass {["x" := Some 5]}]).
Proof.
  rewrite (proj1 (disabled_node_only_bypasses (Info := unit) (St := BufferManager.heap Z)
                    Demo.msg_truthy Demo.update_route_info Demo.wired_disabled eq_refl)
                 tt (Node.World [Queue.mk 0 [5]; Queue.mk 0 []] []) {["x" := Some 5]}
                 [Queue.mk 0 []; Queue.mk 0 []] wired_disabled_gathers).
  vm_compute. reflexivity.
Defined.

Lemma set_runner_binds_once_witness :
  Node.runner Demo.keyed_bound = Some (Node.Build_Runner Demo.xy)
  ∧ Node._event2listener Demo.keyed_bound = [] ++ [Node.HotkeyListener (Node.KeyStr "t")]
  ∧ ∀ r', ∃ e, Node.set_runner Demo.keyed_bound r' = inl e ∧ exn_cls e = RuntimeError.
Proof.
  destruct (set_runner_binds_once Demo.keyed (Node.Build_Runner Demo.xy) Demo.keyed_bound
              eq_refl) as (H1 & _ & _ & _ & _ & _ & H2 & H3).
  split; [exact H1|]. split; [exact H2|exact H3].
Defined.

Lemma toggled_keyed_lifecycle : lifecycle (Node._toggle_enable Demo.keyed_bound).
Proof.
  apply lc_toggle; [|by eexists|reflexivity].
  apply (lc_runner Demo.keyed (Node.Build_Runner Demo.xy)); [|reflexivity].
  by apply (lc_init Demo.Toggleable None (Some (Node.KeyStr "t")) 30 Demo.interval).
Qed.

Lemma reachable_nodes_bypass_by_override_witness :
  ∃ f, Node.bypass_override (Node.class (Node._toggle_enable Demo.keyed_bound)) = Some f
       ∧ Node.bypass (Node.class (Node._toggle_enable Demo.keyed_bound)) = f.
Proof.
  exact (proj2 (reachable_nodes_bypass_by_override (Node._toggle_enable Demo.keyed_bound)
                  toggled_keyed_lifecycle) eq_refl).
Defined.

Lemma ready_inputs_are_all_messages_witness :
  ∃ m, ({["x" := Some 5]} : gmap string (option Z)) !! "x" = Some (Some m).
Proof.
  apply (ready_inputs_are_all_messages Demo.wired
           [Queue.mk 0 [5]; Queue.mk 0 []] [Queue.mk 0 []; Queue.mk 0 []]
           {["x" := Some 5]} wired_gathers (Demo.binding "X" "x" true)).
  by left.
Defined.

Lemma readiness_is_sound_witness :
  Forall (λ b, Node.essential b = true →
               ∃ x rest, contents Demo.ab [Queue.mk 0 [1]; Queue.mk 0 []] (Node.buffer_name b)
                         = Some (x :: rest))
         [Demo.binding "a" "x" true; Demo.binding "b" "y" false].
Proof.
  exact (proj2 (readiness_is_sound (Msg := Z) Demo.ab [Queue.mk 0 [1]; Queue.mk 0 []]
                  [Demo.binding "a" "x" true; Demo.binding "b" "y" false]
                  [Queue.mk 0 [1]; Queue.mk 0 []] eq_refl)).
Defined.



Lemma dispatch_waits_at_a_full_output_witness :
  Node.dispatch (Info := unit) Demo.fan_out
    ([Node.Build_OutputBinding "X"] ++ Node.Build_OutputBinding "Y" :: []) 8
    (Node.World [Queue.mk 0 []; Queue.mk 1 [3]] [])
  = Block (Node.World [Queue.mk 0 [8]; Queue.mk 1 [3]] []).
Proof.
  apply (dispatch_waits_at_a_full_output (Info := unit) Demo.fan_out
           (Node.Build_Runner Demo.xy) 8 [Node.Build_OutputBinding "X"]
           (Node.Build_OutputBinding "Y") []
           [Queue.mk 0 []; Queue.mk 1 [3]] [] [Queue.mk 0 [8]; Queue.mk 1 [3]]
           1%nat (Queue.mk 1 [3])); try reflexivity; simpl; lia.
Defined.

Lemma ab_buffers_hold_items (b : Node.InputBinding) :
  b ∈ [Demo.binding "a" "x" true; Demo.binding "b" "y" false] →
  ∃ x rest, contents Demo.ab [Queue.mk 0 [1; 2]; Queue.mk 0 [3]] (Node.buffer_name b)
            = Some (x :: rest).
Proof.
  intros Hb. apply elem_of_cons in Hb as [->|Hb]; [by exists 1, [2]|].
  apply elem_of_cons in Hb as [->|Hb]; [by exists 3, []|].
  by apply elem_of_nil in Hb.
Qed.

Lemma ready_gather_takes_the_oldest_of_each_buffer_witness :
  ∃ res h',
    Node._get_input_from_buffer
      (Demo.node Demo.Forward Demo.ab [Demo.binding "a" "x" true; Demo.binding "b" "y" false] [])
      [Queue.mk 0 [1; 2]; Queue.mk 0 [3]]
    = Ret (Node.Ready res) h'
    ∧ res !! "x" = Some (Some 1) ∧ contents Demo.ab h' "a" = Some [2]
    ∧ res !! "y" = Some (Some 3) ∧ contents Demo.ab h' "b" = Some [].
Proof.
  destruct (ready_gather_takes_the_oldest_of_each_buffer
              (Demo.node Demo.Forward Demo.ab
                 [Demo.binding "a" "x" true; Demo.binding "b" "y" false] [])
              (Node.Build_Runner Demo.ab) [Queue.mk 0 [1; 2]; Queue.mk 0 [3]]
              eq_refl ab_no_alias
              ltac:(simpl; repeat constructor; set_solver)
              ltac:(simpl; repeat constructor; set_solver)
              eq_refl ab_buffers_hold_items)
    as (res & h' & Hg & Hheads & _).
  exists res, h'. split; [exact Hg|].
  destruct (Hheads (Demo.binding "a" "x" true) 1 [2] ltac:(by left) eq_refl) as [Ha1 Ha2].
  destruct (Hheads (Demo.binding "b" "y" false) 3 [] ltac:(by right; left) eq_refl)
    as [Hb1 Hb2].
  repeat split; assumption.
Defined.

Lemma truthy_output_is_dispatched_witness :
  Node.run_iteration Demo.msg_truthy Demo.update_route_info Demo.wired tt
    (Node.World [Queue.mk 0 [5]; Queue.mk 0 []] [])
  = Node.dispatch Demo.wired (Node.output_buffers Demo.wired)
      (Demo.update_route_info 5 Demo.wired tt)
      (Node.World [Queue.mk 0 []; Queue.mk 0 []]
         ([] ++ [Node.CallProcess {["x" := Some 5]}; Node.UpdateRouteInfo 5 tt])).
Proof.
  exact (proj2 (truthy_output_is_dispatched Demo.msg_truthy Demo.update_route_info
                  Demo.wired tt (Node.World [Queue.mk 0 [5]; Queue.mk 0 []] [])
                  {["x" := Some 5]} [Queue.mk 0 []; Queue.mk 0 []] 5
                  wired_gathers eq_refl eq_refl) eq_refl eq_refl).
Defined.

Lemma failing_gathers :
  Node._get_input_from_buffer
    (Demo.node Demo.Failing Demo.xy [Demo.binding "X" "x" true] ["Y"])
    [Queue.mk 0 [5]; Queue.mk 0 []]
  = Ret (Node.Ready {["x" := Some 5]}) [Queue.mk 0 []; Queue.mk 0 []].
Proof. vm_compute. reflexivity. Qed.

Lemma transform_error_ends_the_loop_witness :
  Node.run Demo.msg_truthy Demo.update_route_info
    (Demo.node Demo.Failing Demo.xy [Demo.binding "X" "x" true] ["Y"]) [tt; tt; tt]
    (Node.World [Queue.mk 0 [5]; Queue.mk 0 []] [])
  = Raise (Exn RuntimeError "process failed")
      (Node.World [Queue.mk 0 []; Queue.mk 0 []]
         ([] ++ [chosen_call (Demo.node Demo.Failing Demo.xy [Demo.binding "X" "x" true] ["Y"])
                   {["x" := Some 5]}])).
Proof.
  exact (proj2 (transform_error_ends_the_loop Demo.msg_truthy Demo.update_route_info
                  (Demo.node Demo.Failing Demo.xy [Demo.binding "X" "x" true] ["Y"])
                  tt [tt; tt] (Node.World [Queue.mk 0 [5]; Queue.mk 0 []] [])
                  {["x" := Some 5]} [Queue.mk 0 []; Queue.mk 0 []]
                  (Exn RuntimeError "process failed") failing_gathers eq_refl)).
Defined.

Lemma unregistered_input_buffer_raises_witness :
  Node._get_input_from_buffer
    (Demo.node Demo.Forward Demo.onlyX [Demo.binding "X" "x" true; Demo.binding "Z" "z" false] [])
    [Queue.mk 0 [5]]
  = Raise (Exn ValueError (BufferManager.not_registered_msg "get" "Z")) [Queue.mk 0 []].
Proof.
  refine (proj2 (unregistered_input_buffer_raises
                   (Demo.node Demo.Forward Demo.onlyX
                      [Demo.binding "X" "x" true; Demo.binding "Z" "z" false] [])
                   (Node.Build_Runner Demo.onlyX)
                   [Demo.binding "X" "x" true] (Demo.binding "Z" "z" false) []
                   [Queue.mk 0 [5]] eq_refl eq_refl eq_refl)
                eq_refl {["x" := Some 5; "z" := None]} [Queue.mk 0 []] _ _);
    vm_compute; reflexivity.
Defined.

Lemma toggling_switches_the_branch_witness :
  ∃ suffix,
    Node.trace (final_store
      (Node.live Demo.msg_truthy Demo.update_route_info Demo.wired
         (Node.ToggleFired :: (Node.Pass <$> [tt; tt]))
         (Node.World [Queue.mk 0 [5; 6]; Queue.mk 0 []] [])))
    = [] ++ suffix
    ∧ Forall (λ e, is_enabled_side e = false) suffix.
Proof.
  exact (proj1 (toggling_switches_the_branch Demo.msg_truthy Demo.update_route_info
                  Demo.wired [tt; tt] (Node.World [Queue.mk 0 [5; 6]; Queue.mk 0 []] [])
                  eq_refl)).
Defined.
